(** * The cleaning engine of the data analyzer ([clean_data] in app.py)

    [clean_data] copies a pandas DataFrame, fills missing cells (mean for
    numeric columns, mode for the others), drops duplicated rows, resets the
    row index and finally tries to re-type every [object] column, first as
    numbers and then as dates.

    The frame is embedded as a row index plus an ordered list of named
    columns.  A column carries its dtype as a constructor, so that a cell can
    only hold what its dtype can hold: numbers, timestamps, strings or
    booleans.  Frames with cells of another kind (lists, dicts, objects of
    mixed types) have no value here; where the app can meet one, the model
    says that it does not tell.  Missing cells ([NaN], [None], [NaT]) are
    [None].  A numeric cell is a finite value, given by the rational it
    denotes, or an infinity.  The float64 arithmetic behind [Series.mean],
    the order and the rounding of numpy's additions and the division by the
    count, is left to numpy: it is a class, every theorem holds for any
    such arithmetic, and the worked examples compute with binary64
    rounding, added from left to right.

    The two pandas parsers used by the coercion stage, [pd.to_numeric] and
    [pd.to_datetime], live outside the repository.  They are the fields of
    a class: every theorem holds for any parser, and the worked examples
    instantiate them with a small decimal grammar.

    The function is given twice: as a function on frame values, and as a
    program on a heap of frame objects and column buffers, where the copy and
    the assignments [df_clean[col] = ...] are visible.  The second is shown
    to compute the first.

    Around the engine, the Streamlit pages ([load_dataset],
    [show_missing_values], [show_data_analysis], [show_visualizations],
    [main]) are functions from the inputs of a run and the session state to
    the elements written, the session state left and the way the run ends:
    at its end, with an exception, or beyond what the model tells. *)

From Stdlib Require Import QArith Qcanon Ascii String.
From stdpp Require Import base option list list_numbers strings sorting gmap.

Local Open Scope Z_scope.

(** ** Numbers *)

(** A cell of a float64 or int64 column that is not [NaN]: a finite value,
    as the rational it denotes, or an infinity.  [NaN] is the missing cell.
    The two zeros of float64 are one value: pandas compares and hashes them
    as equal. *)
Inductive float64 :=
| Finite (q : Qc)
| Infinite (negative : bool).

Global Instance float64_eq_dec : EqDecision float64.
Proof. solve_decision. Defined.

Definition is_finite (x : float64) : bool :=
  match x with Finite _ => true | Infinite _ => false end.

(** The order of float64 values. *)
Definition float64_le (x y : float64) : Prop :=
  match x, y with
  | Infinite true, _ => True
  | _, Infinite false => True
  | Finite p, Finite q => (p ≤ q)%Qc
  | _, _ => False
  end.

Global Instance float64_le_dec : RelDecision float64_le.
Proof. intros [p|[]] [q|[]]; simpl; apply _. Defined.

Global Instance float64_le_trans : Transitive float64_le.
Proof.
  intros [p|[]] [q|[]] [r|[]]; simpl; try done. apply Qcle_trans.
Qed.

Global Instance float64_le_total : Total float64_le.
Proof.
  intros [p|[]] [q|[]]; simpl; try tauto.
  destruct (Qclt_le_dec p q) as [?%Qclt_le_weak|?]; tauto.
Qed.

(** The float64 arithmetic of numpy that [Series.mean] relies on. *)
Class Float64Ops := {
  (** [a.sum()] on a float64 array: the sum as numpy accumulates and rounds
      it, [None] when it is [NaN]. *)
  sum64 : list float64 → option float64;
  (** [x / n]: a float64 that is not [NaN] divided by a count. *)
  div64 : float64 → nat → float64
}.

(** ** Data model *)

(** A column: dtype and cells.  A [bool] column cannot hold a missing cell. *)
Inductive column :=
| Numeric (xs : list (option float64))             (* int64 / float64 *)
| Temporal (tz : option string) (xs : list (option Z))
                                                   (* datetime64[ns] / DatetimeTZDtype *)
| Textual (xs : list (option string))              (* object, holding str *)
| Boolean (xs : list bool).                        (* bool *)

Global Instance column_eq_dec : EqDecision column.
Proof. solve_decision. Defined.

(** [df]: the row labels and the columns in order. *)
Record DataFrame := mkDataFrame {
  index : list Z;
  columns : list (string * column)
}.

Global Instance DataFrame_eq_dec : EqDecision DataFrame.
Proof. solve_decision. Defined.

(** A cell of any dtype, as rows are compared by [drop_duplicates]. *)
Inductive value :=
| VNum (x : float64)
| VTime (t : Z)
| VStr (s : string)
| VBool (b : bool).

Global Instance value_eq_dec : EqDecision value.
Proof. solve_decision. Defined.

Abbreviation cell := (option value).

Definition col_cells (c : column) : list cell :=
  match c with
  | Numeric xs => fmap (M:=option) VNum <$> xs
  | Temporal _ xs => fmap (M:=option) VTime <$> xs
  | Textual xs => fmap (M:=option) VStr <$> xs
  | Boolean xs => (λ b, Some (VBool b)) <$> xs
  end.

Definition col_length (c : column) : nat := length (col_cells c).

(** [dtype == object] *)
Definition is_object (c : column) : bool :=
  match c with Textual _ => true | _ => false end.

(** The classifier: [select_dtypes(include=[np.number])]. *)
Definition is_numeric (c : column) : bool :=
  match c with Numeric _ => true | _ => false end.

(** [isinstance(dtype, DatetimeTZDtype)] *)
Definition is_tz_aware (c : column) : bool :=
  match c with Temporal (Some _) _ => true | _ => false end.

(** The shape invariant of a frame: unique column names, one cell per row
    label in every column. *)
Definition wf (df : DataFrame) : Prop :=
  NoDup (columns df).*1 ∧
  Forall (λ nc, col_length nc.2 = length (index df)) (columns df).

(** ** Series operations *)

Section series.
Context {A : Type}.

Definition isna (x : option A) : bool :=
  match x with None => true | Some _ => false end.

(** [s.isna().any()] *)
Definition isna_any (xs : list (option A)) : bool := existsb isna xs.

(** [s.notna().any()] *)
Definition notna_any (xs : list (option A)) : bool :=
  existsb (λ x, negb (isna x)) xs.

(** [s.fillna(v)]; the fill value may itself be missing. *)
Definition fillna (v : option A) (xs : list (option A)) : list (option A) :=
  (λ x, match x with Some a => Some a | None => v end) <$> xs.

(** [s.dropna()] *)
Definition dropna (xs : list (option A)) : list A := omap id xs.
End series.

(** [s.mean()] with [skipna] (pandas's [nanmean]): the missing cells are
    put to zero, the array is summed and the sum is divided by the number
    of cells that are not missing; with no such cell the mean is [NaN], and
    so it is when the sum is. *)
Definition nansum {F : Float64Ops} (xs : list (option float64))
    : option float64 :=
  sum64 (default (Finite 0) <$> xs).

Definition notna_count (xs : list (option float64)) : nat :=
  length (filter (λ x, isna x = false) xs).

Definition mean {F : Float64Ops} (xs : list (option float64))
    : option float64 :=
  match notna_count xs with
  | O => None
  | S _ as n => (λ the_sum, div64 the_sum n) <$> nansum xs
  end.

(** [if s.isna().any(): s.fillna(s.mean())]: the Series to assign, if the
    guard lets the assignment happen.  Filling with [NaN] fills nothing. *)
Definition mean_fill {F : Float64Ops} (xs : list (option float64))
    : option (list (option float64)) :=
  if isna_any xs then Some (fillna (mean xs) xs) else None.

(** [s.mode()]: the most frequent values among the non-missing cells, sorted
    in ascending order. *)
Section mode.
Context {A : Type} `{EqDecision A} (R : relation A) `{!RelDecision R}.

Definition occurrences (a : A) (vals : list A) : nat :=
  length (filter (a =.) vals).

(** Distinct values in order of first appearance (the counting table). *)
Fixpoint unique (vals : list A) : list A :=
  match vals with
  | [] => []
  | a :: vals' => a :: filter (λ b, b ≠ a) (unique vals')
  end.

Definition max_occurrences (vals : list A) : nat :=
  max_list ((λ a, occurrences a vals) <$> vals).

Definition most_frequent (vals : list A) : list A :=
  filter (λ a, occurrences a vals = max_occurrences vals) (unique vals).

Definition mode (xs : list (option A)) : list A :=
  merge_sort R (most_frequent (dropna xs)).

(** [if s.isna().any(): m = s.mode(); if not m.empty: s.fillna(m[0])] *)
Definition mode_fill (xs : list (option A)) : option (list (option A)) :=
  if isna_any xs then
    match mode xs with
    | [] => None
    | m :: _ => Some (fillna (Some m) xs)
    end
  else None.
End mode.

(** ** Frame operations *)

(** [df[name]], for a name that the frame has once: the Series of that
    name.  For a name it has twice pandas gives a frame of the columns of
    that name; [clean_data_call] says what [clean_data] does then. *)
Fixpoint getitem {V} (cols : list (string * V)) (name : string) : option V :=
  match cols with
  | [] => None
  | (n, c) :: cols' => if decide (n = name) then Some c else getitem cols' name
  end.

(** [df[name] = c]: replaces the column of that name in place, or appends. *)
Fixpoint setitem {V} (cols : list (string * V)) (name : string) (c : V)
    : list (string * V) :=
  match cols with
  | [] => [(name, c)]
  | (n, c0) :: cols' =>
      if decide (n = name) then (n, c) :: cols' else (n, c0) :: setitem cols' name c
  end.

(** One loop iteration.  [body] looks at [df[col]] and says what is assigned
    to [df[col]], if anything. *)
Definition assign (body : column → option column)
    (cols : list (string * column)) (name : string) : list (string * column) :=
  match getitem cols name with
  | Some c =>
      match body c with
      | Some c' => setitem cols name c'
      | None => cols
      end
  | None => cols                       (* not reached: the names are the frame's *)
  end.

(** [for col in names: ...] *)
Definition for_each (names : list string) (body : column → option column)
    (cols : list (string * column)) : list (string * column) :=
  foldl (assign body) cols names.

(** *** Stage 1: classification *)

Definition numeric_cols (df : DataFrame) : list string :=
  (filter (λ nc, is_numeric nc.2 = true) (columns df)).*1.

Definition categorical_cols (df : DataFrame) : list string :=
  (filter (λ nc, is_numeric nc.2 = false) (columns df)).*1.

(** *** Stage 2: imputation *)

(** Body of the loop over [numeric_cols].  The loop only meets numeric
    columns; the other branch is never reached. *)
Definition impute_numeric {F : Float64Ops} (c : column) : option column :=
  match c with
  | Numeric xs => Numeric <$> mean_fill xs
  | _ => None
  end.

(** Body of the loop over [categorical_cols].  A [bool] column has no
    missing cell, so the guard is false on it. *)
Definition impute_categorical (c : column) : option column :=
  match c with
  | Numeric xs => Numeric <$> mode_fill float64_le xs
  | Temporal tz xs => Temporal tz <$> mode_fill Z.le xs
  | Textual xs => Textual <$> mode_fill String.le xs
  | Boolean xs => None
  end.

Definition impute {F : Float64Ops} (df : DataFrame) : DataFrame :=
  let cols1 := for_each (numeric_cols df) impute_numeric (columns df) in
  let cols2 := for_each (categorical_cols df) impute_categorical cols1 in
  mkDataFrame (index df) cols2.

(** *** Stage 3: duplicate rows *)

Definition nrows (df : DataFrame) : nat := length (index df).

Definition row_at (cols : list (string * column)) (i : nat) : list cell :=
  (λ nc, default None (col_cells nc.2 !! i)) <$> cols.

Definition rows (df : DataFrame) : list (list cell) :=
  row_at (columns df) <$> seq 0 (nrows df).

(** [duplicated(keep="first")]: a row is marked when an equal row came
    before it.  Two missing cells are equal. *)
Fixpoint duplicated_from {A} `{EqDecision A} (seen rs : list A) : list bool :=
  match rs with
  | [] => []
  | r :: rs' =>
      if decide (r ∈ seen) then true :: duplicated_from seen rs'
      else false :: duplicated_from (r :: seen) rs'
  end.

Definition duplicated (df : DataFrame) : list bool :=
  duplicated_from [] (rows df).

(** Selection by a boolean mask, [s[mask]]. *)
Definition select {A} (mask : list bool) (xs : list A) : list A :=
  (filter (λ bx, bx.1 = true) (zip mask xs)).*2.

Definition col_select (mask : list bool) (c : column) : column :=
  match c with
  | Numeric xs => Numeric (select mask xs)
  | Temporal tz xs => Temporal tz (select mask xs)
  | Textual xs => Textual (select mask xs)
  | Boolean xs => Boolean (select mask xs)
  end.

(** [df.empty]: no row or no column. *)
Definition is_empty (df : DataFrame) : bool :=
  bool_decide (index df = [] ∨ columns df = []).

(** [df.drop_duplicates()]: pandas hands back an empty frame as it is. *)
Definition drop_duplicates (df : DataFrame) : DataFrame :=
  if is_empty df then df
  else
    let keep := negb <$> duplicated df in
    mkDataFrame (select keep (index df))
                (prod_map id (col_select keep) <$> columns df).

(** [df.reset_index(drop=True)] *)
Definition reset_index (df : DataFrame) : DataFrame :=
  mkDataFrame (Z.of_nat <$> seq 0 (nrows df)) (columns df).

(** *** Stage 4: dtype coercion *)

(** A call of one of the two parsers. *)
Inductive attempt := TryNumeric | TryDatetime.

(** A computation that calls the parsers: its value and the calls it has
    made, in order. *)
Definition traced (A : Type) : Type := A * list attempt.

Global Instance attempt_eq_dec : EqDecision attempt.
Proof. solve_decision. Defined.

Global Instance traced_eq_dec {A} `{EqDecision A} : EqDecision (traced A).
Proof. unfold traced. apply _. Defined.

Global Instance traced_ret : MRet traced := λ A a, (a, []).

Global Instance traced_bind : MBind traced :=
  λ A B f m, let '(b, calls) := f m.1 in (b, m.2 ++ calls).

(** The two pandas parsers that the stage calls. *)
Class Parsers := {
  (** [pd.to_numeric] on one string: [None] when it is not a number,
      [Some None] when it reads as [NaN], [Some (Some x)] otherwise. *)
  parse_number : string → option (option float64);
  (** [pd.to_datetime(s, errors="ignore", infer_datetime_format=True)] on an
      object column: the Series it returns. *)
  to_datetime : list (option string) → column
}.

Section coercion.
Context {F : Float64Ops} {P : Parsers}.

(** A missing cell converts to [NaN]; one failure fails the column. *)
Definition to_numeric (xs : list (option string))
    : option (list (option float64)) :=
  mapM (λ x, match x with None => Some None | Some s => parse_number s end) xs.

(** [pd.to_numeric(s, errors="ignore")]: the input comes back on failure. *)
Definition to_numeric_ignore (xs : list (option string)) : column :=
  match to_numeric xs with
  | Some ys => Numeric ys
  | None => Textual xs
  end.

(** The two parsers as the loop calls them: a call is recorded where it is
    made. *)
Definition call_to_numeric (xs : list (option string)) : traced column :=
  (to_numeric_ignore xs, [TryNumeric]).

Definition call_to_datetime (xs : list (option string)) : traced column :=
  (to_datetime xs, [TryDatetime]).

(** Body of the last loop: what is assigned to the column, if anything,
    with the calls made on the way. *)
Definition coerce_log (c : column) : traced (option column) :=
  match c with
  | Textual xs =>                                    (* dtype == object *)
      converted_num ← call_to_numeric xs;
      if negb (is_object converted_num) then
        mret (Some converted_num)                    (* continue *)
      else
        converted_dt ← call_to_datetime xs;
        if negb (is_tz_aware converted_dt || is_object converted_dt) then
          mret (Some converted_dt)
        else mret None
  | _ => mret None
  end.

Definition coerce_body (c : column) : option column := (coerce_log c).1.

Definition coerce (df : DataFrame) : DataFrame :=
  mkDataFrame (index df)
              (for_each (columns df).*1 coerce_body (columns df)).

(** [clean_data], as a function of the value of [df]; on values [df.copy()]
    is the identity. *)
Definition clean_data (df : DataFrame) : DataFrame :=
  coerce (reset_index (drop_duplicates (impute df))).

(** [clean_data(df)] as a call.  Where a column name occurs twice,
    [df_clean[col]] is a frame and not a Series, [.isna().any()] is a
    Series, and the guard of the first fill loop that meets the name raises
    [ValueError] (line 81 or 86): the call does not return.  Every name is
    met by one of the two loops. *)
Definition clean_data_call (df : DataFrame) : option DataFrame :=
  if decide (NoDup (columns df).*1) then Some (clean_data df) else None.
End coercion.

(** ** The program on the heap *)

(** Objects have an address.  A frame object holds its labels and, for each
    column name, the address of the buffer with the cells. *)
Abbreviation loc := nat.

Inductive obj :=
| OFrame (idx : list Z) (cols : list (string * loc))
| OSeries (c : column).

Global Instance obj_eq_dec : EqDecision obj.
Proof. solve_decision. Defined.

Abbreviation heap := (gmap loc obj).

(** Computations that read and write the heap and may fail (a [KeyError]). *)
Definition M (A : Type) : Type := heap → option (A * heap).

Global Instance M_ret : MRet M := λ A a h, Some (a, h).
Global Instance M_bind : MBind M := λ A B f m h,
  match m h with
  | Some (a, h') => f a h'
  | None => None
  end.

Definition raise {A} : M A := λ _, None.

Definition alloc (o : obj) : M loc := λ h,
  let l := fresh (dom h) in Some (l, <[l := o]> h).

Definition load (l : loc) : M obj := λ h,
  match h !! l with
  | Some o => Some (o, h)
  | None => None
  end.

Definition store (l : loc) (o : obj) : M unit := λ h, Some ((), <[l := o]> h).

Definition load_frame (p : loc) : M (list Z * list (string * loc)) :=
  o ← load p;
  match o with
  | OFrame idx lcols => mret (idx, lcols)
  | OSeries _ => raise
  end.

Definition load_series (l : loc) : M column :=
  o ← load l;
  match o with
  | OSeries c => mret c
  | OFrame _ _ => raise
  end.

Fixpoint load_columns (lcols : list (string * loc)) : M (list (string * column)) :=
  match lcols with
  | [] => mret []
  | (n, l) :: lcols' =>
      c ← load_series l;
      cols ← load_columns lcols';
      mret ((n, c) :: cols)
  end.

Fixpoint alloc_columns (cols : list (string * column)) : M (list (string * loc)) :=
  match cols with
  | [] => mret []
  | (n, c) :: cols' =>
      l ← alloc (OSeries c);
      lcols ← alloc_columns cols';
      mret ((n, l) :: lcols)
  end.

(** The value of the frame at [p]. *)
Definition read_frame (p : loc) : M DataFrame :=
  '(idx, lcols) ← load_frame p;
  cols ← load_columns lcols;
  mret (mkDataFrame idx cols).

(** A new frame object with buffers of its own. *)
Definition new_frame (df : DataFrame) : M loc :=
  lcols ← alloc_columns (columns df);
  alloc (OFrame (index df) lcols).

(** [df.copy()]: a deep copy. *)
Definition df_copy (p : loc) : M loc :=
  df ← read_frame p;
  new_frame df.

(** [df.drop_duplicates().reset_index(drop=True)]: each call returns a new
    frame. *)
Definition drop_duplicates_st (p : loc) : M loc :=
  df ← read_frame p;
  new_frame (drop_duplicates df).

Definition reset_index_st (p : loc) : M loc :=
  df ← read_frame p;
  new_frame (reset_index df).

(** [df[name]] *)
Definition getitem_st (p : loc) (name : string) : M column :=
  '(idx, lcols) ← load_frame p;
  match getitem lcols name with
  | Some l => load_series l
  | None => raise
  end.

(** [df[name] = c]: the frame object at [p] is updated in place and points
    to a new buffer. *)
Definition setitem_st (p : loc) (name : string) (c : column) : M unit :=
  '(idx, lcols) ← load_frame p;
  l ← alloc (OSeries c);
  store p (OFrame idx (setitem lcols name l)).

Definition assign_st (body : column → option column) (p : loc)
    (name : string) : M unit :=
  c ← getitem_st p name;
  match body c with
  | Some c' => setitem_st p name c'
  | None => mret ()
  end.

Fixpoint for_each_st (names : list string) (body : column → option column)
    (p : loc) : M unit :=
  match names with
  | [] => mret ()
  | name :: names' => assign_st body p name;; for_each_st names' body p
  end.

Section program.
Context {F : Float64Ops} {P : Parsers}.

(** [clean_data(df)], [df] being the address of the caller's frame. *)
Definition clean_data_st (df : loc) : M loc :=
  df_clean ← df_copy df;
  v ← read_frame df_clean;
  let numeric_cols := numeric_cols v in
  let categorical_cols := categorical_cols v in
  for_each_st numeric_cols impute_numeric df_clean;;
  for_each_st categorical_cols impute_categorical df_clean;;
  df_clean ← drop_duplicates_st df_clean;
  df_clean ← reset_index_st df_clean;
  v ← read_frame df_clean;
  for_each_st (columns v).*1 (coerce_body) df_clean;;
  mret df_clean.
End program.

(** ** Notions used in the statements *)

Implicit Types (cols : list (string * column)) (names : list string).
Implicit Types (c : column) (df : DataFrame) (n : string).

(** What an iteration leaves in the column. *)
Definition run (body : column → option column) (c : column) : column :=
  default c (body c).

(** What the guarded fill leaves in a Series. *)
Definition fill_with_mean {F : Float64Ops} (xs : list (option float64))
    : list (option float64) :=
  default xs (mean_fill xs).

Definition fill_with_mode {A} `{EqDecision A} (R : relation A)
    `{!RelDecision R} (xs : list (option A)) : list (option A) :=
  default xs (mode_fill R xs).

(** What the two imputation loops leave in one column, by its class. *)
Definition impute_column {F : Float64Ops} (c : column) : column :=
  if is_numeric c then run impute_numeric c else run impute_categorical c.

Definition coerce_column {P : Parsers} (c : column) : column :=
  run coerce_body c.

(** What a loop over [names] does to one named column. *)
Definition apply_at (names : list string) (f : column → column)
    (nc : string * column) : string * column :=
  if decide (nc.1 ∈ names) then (nc.1, f nc.2) else nc.

(** Column-level views of missing cells. *)
Definition col_isna_any (c : column) : bool := isna_any (col_cells c).
Definition col_notna_any (c : column) : bool := notna_any (col_cells c).

(** The mean of a numeric column is a number, not [NaN]; other columns are
    not filled with a mean, and the condition holds of them. *)
Definition has_mean {F : Float64Ops} (c : column) : bool :=
  match c with
  | Numeric xs => bool_decide (is_Some (mean xs))
  | _ => true
  end.

(** A column is settled when imputation has nothing to do on it: it has
    no missing cell, or nothing but missing cells. *)
Definition settled (c : column) : Prop :=
  col_isna_any c = false ∨ col_notna_any c = false.

(** The arithmetic mean of a list of numbers, as the words have it. *)
Definition arithmetic_mean (vals : list Qc) : Qc :=
  (foldr Qcplus 0 vals / Qc_of_Z (Z.of_nat (length vals)))%Qc.

(** [m] is a most frequent value of [vals] and comes first, in the order
    [R], among the values that are as frequent. *)
Definition is_lowest_mode {A} `{EqDecision A} (R : relation A)
    (m : A) (vals : list A) : Prop :=
  m ∈ vals ∧
  (∀ a, a ∈ vals → occurrences a vals ≤ occurrences m vals)%nat ∧
  (∀ a, a ∈ vals → occurrences a vals = occurrences m vals → R m a).

(** The tie-break as the specification words it: the first of the most
    frequent values, in order of first appearance. *)
Definition first_most_frequent {A} `{EqDecision A} (vals : list A) : option A :=
  head (most_frequent vals).

(** [ys] is [xs] with every missing cell replaced by [v] and every other
    cell unchanged. *)
Definition filled_with {A} (v : A) (xs ys : list (option A)) : Prop :=
  length ys = length xs ∧
  ∀ j, (xs !! j = Some None → ys !! j = Some (Some v)) ∧
       (∀ a, xs !! j = Some (Some a) → ys !! j = Some (Some a)).

(** One cell against its numeric reading: a missing cell stays missing, a
    string becomes what the parser reads. *)
Definition reads_as {P : Parsers} (x : option string) (y : option float64)
    : Prop :=
  match x with
  | None => y = None
  | Some s => parse_number s = Some y
  end.

(** The date parser returns one cell per cell it was given. *)
Definition keeps_length {P : Parsers} : Prop :=
  ∀ xs, col_length (to_datetime xs) = length xs.

(** The frame object at [p] holds the value [df]. *)
Definition frame_at (h : heap) (p : loc) (df : DataFrame) : Prop :=
  read_frame p h = Some (df, h).

(** The buffer behind a column entry of a frame object holds that column. *)
Definition holds (h : heap) (nl : string * loc) (nc : string * column) : Prop :=
  nl.1 = nc.1 ∧ h !! nl.2 = Some (OSeries nc.2).

(** The frame object at [p] has the entries [lcols], which hold the columns
    of [df]. *)
Definition represents (h : heap) (p : loc) (df : DataFrame)
    (lcols : list (string * loc)) : Prop :=
  h !! p = Some (OFrame (index df) lcols) ∧
  Forall2 (holds h) lcols (columns df).

(** The frame object at [q] holds [df] and is private to the call: since the
    heap was [h0], nothing of [h0] has changed, and neither [q] nor any of
    its buffers existed in [h0]. *)
Definition owned (h0 h : heap) (q : loc) (df : DataFrame) : Prop :=
  h0 ⊆ h ∧ h0 !! q = None ∧
  ∃ lcols, represents h q df lcols ∧ Forall (λ nl, h0 !! nl.2 = None) lcols.

(** The addresses of the buffers of the frame object at [p]. *)
Definition buffers (h : heap) (p : loc) : list loc :=
  match h !! p with
  | Some (OFrame _ lcols) => lcols.*2
  | _ => []
  end.

(** ** Binary64 arithmetic for the worked examples

    Rounding to the nearest float64, ties to even: 53 bits, exponents down
    to the subnormal numbers, overflow to infinity.  Sums are accumulated
    from left to right, which is numpy's order for an array of fewer than
    eight elements. *)

(** The integer nearest to [n / d], ties to even, for [0 < d]. *)
Definition round_half_even (n d : Z) : Z :=
  let f := n / d in
  let r := 2 * (n mod d) in
  if decide (r < d) then f
  else if decide (d < r) then f + 1
  else if Z.even f then f else f + 1.

(** The exponent [e] with [2^e ≤ n / d < 2^(e+1)], for [0 < n] and [0 < d]. *)
Definition exponent (n d : Z) : Z :=
  let e := Z.log2 n - Z.log2 d in
  if decide (0 ≤ e) then (if decide (n < d * 2 ^ e) then e - 1 else e)
  else (if decide (n * 2 ^ (- e) < d) then e - 1 else e).

Definition round64 (q : Qc) : float64 :=
  let n := Z.abs (Qnum q) in
  let d := Z.pos (Qden q) in
  if decide (n = 0) then Finite 0
  else
    let u := Z.max (exponent n d - 52) (-1074) in   (* the last place is 2^u *)
    let m := if decide (0 ≤ u) then round_half_even n (d * 2 ^ u)
             else round_half_even (n * 2 ^ (- u)) d in
    if decide (1024 ≤ u + Z.log2 m) then Infinite (bool_decide (Qnum q < 0))
    else
      let r := if decide (0 ≤ u) then Qc_of_Z (m * 2 ^ u)
               else (Qc_of_Z m / Qc_of_Z (2 ^ (- u)))%Qc in
      Finite (if decide (Qnum q < 0) then (- r)%Qc else r).

(** [x + y]; the sum of the two infinities is [NaN]. *)
Definition add64 (x y : float64) : option float64 :=
  match x, y with
  | Finite p, Finite q => Some (round64 (p + q)%Qc)
  | Infinite a, Infinite b => if bool_decide (a = b) then Some x else None
  | Infinite _, Finite _ => Some x
  | Finite _, Infinite _ => Some y
  end.

Definition sum_left_to_right (l : list float64) : option float64 :=
  foldl (λ acc x, acc ≫= λ a, add64 a x) (Some (Finite 0)) l.

Definition binary64 : Float64Ops :=
  {| sum64 := sum_left_to_right;
     div64 x count :=
       match x with
       | Finite q => round64 (q / Qc_of_Z (Z.of_nat count))%Qc
       | Infinite _ => x
       end |}.

(** ** A decimal grammar for the worked examples

    A part of what [pd.to_numeric] reads: an optional sign, digits with an
    optional dot among them, and an optional exponent; the empty string
    reads as [NaN].  A string of digits with at most a sign is an integer
    and is kept exact, within the range of int64/uint64; beyond it the real
    parser gives the string back.  Every other number is rounded to
    float64.  The real parser reads more (blanks around, inf, nan): the
    worked examples stay with strings on which the two agree. *)

Definition digit_of (a : ascii) : option Z :=
  let n := Z.of_N (N_of_ascii a) in
  if decide (48 ≤ n ≤ 57) then Some (n - 48) else None.

(** Value and number of digits of a digit string. *)
Fixpoint parse_digits (s : string) (acc : Z) (len : nat) : option (Z * nat) :=
  match s with
  | EmptyString => Some (acc, len)
  | String a s' =>
      match digit_of a with
      | Some d => parse_digits s' (10 * acc + d) (S len)
      | None => None
      end
  end.

(** Splits at the first character that [p] accepts. *)
Fixpoint split_at (p : ascii → bool) (s : string) : string * option string :=
  match s with
  | EmptyString => (EmptyString, None)
  | String a s' =>
      if p a then (EmptyString, Some s')
      else let '(l, r) := split_at p s' in (String a l, r)
  end.

(** A leading sign: whether it is a minus, and the rest. *)
Definition parse_sign (s : string) : bool * string :=
  match s with
  | String a s' =>
      if decide (a = "-"%char) then (true, s')
      else if decide (a = "+"%char) then (false, s')
      else (false, s)
  | EmptyString => (false, s)
  end.

(** Digits with an optional dot among them, a digit at least: the value,
    and whether there was a dot. *)
Definition parse_mantissa (s : string) : option (Qc * bool) :=
  let '(ip, fp) := split_at (λ a, bool_decide (a = "."%char)) s in
  match parse_digits ip 0 0, fp with
  | Some (i, S _), None => Some (Qc_of_Z i, false)
  | Some (i, len), Some fs =>
      match parse_digits fs 0 0 with
      | Some (f, k) =>
          if decide (len = 0 ∧ k = 0)%nat then None
          else Some (Qc_of_Z i + Qc_of_Z f / Qc_of_Z (10 ^ Z.of_nat k), true)%Qc
      | None => None
      end
  | _, _ => None
  end.

(** An exponent: an optional sign and a digit at least. *)
Definition parse_exponent (s : string) : option Z :=
  let '(negative, ds) := parse_sign s in
  match parse_digits ds 0 0 with
  | Some (e, S _) => Some (if negative then - e else e)
  | _ => None
  end.

Definition neg64 (x : float64) : float64 :=
  match x with
  | Finite q => Finite (- q)%Qc
  | Infinite b => Infinite (negb b)
  end.

Definition parse_decimal (s : string) : option (option float64) :=
  match s with
  | EmptyString => Some None
  | _ =>
      let '(negative, body) := parse_sign s in
      let '(ms, es) :=
        split_at (λ a, bool_decide (a = "e"%char ∨ a = "E"%char)) body in
      m ← parse_mantissa ms;
      match es, m with
      | None, (q, false) =>                            (* an integer *)
          if decide (Qnum q < (if negative then 2 ^ 63 + 1 else 2 ^ 64))
          then Some (Some (Finite (if negative then (- q)%Qc else q)))
          else None
      | None, (q, true) =>
          Some (Some ((if negative then neg64 else id) (round64 q)))
      | Some es, (q, _) =>
          e ← parse_exponent es;
          let scaled :=
            if decide (0 ≤ e) then (q * Qc_of_Z (10 ^ e))%Qc
            else (q / Qc_of_Z (10 ^ (- e)))%Qc in
          Some (Some ((if negative then neg64 else id) (round64 scaled)))
      end
  end.

(** A date parser that knows nothing: the input comes back. *)
Definition no_datetime (xs : list (option string)) : column := Textual xs.

(** A date parser that reads a column of four-digit years as the first
    instant of each year, in days since 1970-01-01. *)
Definition year_start (y : Z) : Z :=
  365 * (y - 1970) + (y - 1969) / 4 - (y - 1901) / 100 + (y - 1601) / 400.

Definition parse_year (s : string) : option Z :=
  match parse_digits s 0 0 with
  | Some (y, 4%nat) => Some (year_start y)
  | _ => None
  end.

Definition year_datetime (xs : list (option string)) : column :=
  match mapM (λ x, match x with
                   | None => Some None
                   | Some s => Some <$> parse_year s
                   end) xs with
  | Some ys => Temporal None ys
  | None => Textual xs
  end.

(** A date parser that reads everything as midnight UTC of day 0, with the
    timezone attached. *)
Definition utc_datetime (xs : list (option string)) : column :=
  Temporal (Some "UTC"%string)
           ((λ x : option string, match x with Some _ => Some 0 | None => None end)
              <$> xs).

(** ** Dtypes *)

(** [df.dtypes]: the representation of a column, without its cells. *)
Inductive dtype :=
| DNumeric
| DTemporal (tz : option string)
| DObject
| DBool.

Definition dtype_of (c : column) : dtype :=
  match c with
  | Numeric _ => DNumeric
  | Temporal tz _ => DTemporal tz
  | Textual _ => DObject
  | Boolean _ => DBool
  end.

(** ** The pages around [clean_data]

    The Streamlit script is rerun from the top at every interaction.  A run
    is modelled as a function from what the user has set (the uploaded file,
    whether the button was clicked in this run, the two select boxes) and
    the session state to the elements written on the page, in order, and
    the session state the run leaves.  Input widgets are inputs of the run,
    not elements of the page; the page configuration and the title written
    at module level, the same in every run, are left out. *)

(** *** Series and frame views *)

(** [s.isna().sum()] *)
Definition isna_sum {A} (xs : list (option A)) : nat :=
  length (filter (λ x, isna x = true) xs).

(** [s.nunique()]: the distinct values, missing cells left out. *)
Definition nunique {A} `{EqDecision A} (xs : list (option A)) : nat :=
  length (unique (dropna xs)).

(** The order of [s.value_counts()]: most frequent first. *)
Definition more_frequent {A} : relation (A * nat) := λ a b, (b.2 ≤ a.2)%nat.

Global Instance more_frequent_dec {A} : RelDecision (more_frequent (A:=A)).
Proof. intros a b. unfold more_frequent. apply _. Defined.

Global Instance more_frequent_trans {A} : Transitive (more_frequent (A:=A)).
Proof. intros a b c. unfold more_frequent. lia. Qed.

Global Instance more_frequent_total {A} : Total (more_frequent (A:=A)).
Proof. intros a b. unfold more_frequent. lia. Qed.

(** Puts an entry behind the entries that are at least as frequent. *)
Fixpoint insert_by_count {A} (x : A * nat) (l : list (A * nat))
    : list (A * nat) :=
  match l with
  | [] => [x]
  | y :: l' =>
      if decide (y.2 < x.2)%nat then x :: l else y :: insert_by_count x l'
  end.

(** Most frequent first; entries of equal count keep their order. *)
Definition sort_by_count {A} (l : list (A * nat)) : list (A * nat) :=
  foldl (λ acc x, insert_by_count x acc) [] l.

(** [s.value_counts()]: each distinct non-missing value with the number of
    its occurrences, in descending order of that number.  pandas counts the
    values in the order of their first appearance and sorts the counts with
    numpy; the order it leaves among values of equal count is not promised.
    Here such values keep the order of first appearance, as pandas gives
    them on short columns; no statement below depends on it. *)
Definition value_counts {A} `{EqDecision A} (xs : list (option A))
    : list (A * nat) :=
  sort_by_count
    ((λ a, (a, occurrences a (dropna xs))) <$> unique (dropna xs)).

(** The cells of [df[name]], for a name of the frame. *)
Definition series (df : DataFrame) (name : string) : list cell :=
  from_option col_cells [] (getitem (columns df) name).

Definition col_take (k : nat) (c : column) : column :=
  match c with
  | Numeric xs => Numeric (take k xs)
  | Temporal tz xs => Temporal tz (take k xs)
  | Textual xs => Textual (take k xs)
  | Boolean xs => Boolean (take k xs)
  end.

(** [df.head()]: the first five rows. *)
Definition head (df : DataFrame) : DataFrame :=
  mkDataFrame (take 5 (index df)) (prod_map id (col_take 5) <$> columns df).

(** *** Page elements *)

Inductive table :=
| Frame (df : DataFrame)
| Counts (heading : string) (entries : list (string * nat))
                                       (* columns "Column" and [heading] *)
| Dtypes (entries : list (string * dtype))
| Describe (df : DataFrame)            (* [df.describe().T], left to pandas *)
| Corr (numeric : list (string * column)).
                                       (* [numeric_cols.corr()], left to pandas *)

Inductive figure :=
| Hist (col : string) (data : list value) (bins : nat)
| Bar (col : string) (bars : list (value * nat)).

Inductive element :=
| st_sidebar_title (s : string)
| st_info (s : string)
| st_warning (s : string)
| st_error (s : string)
| st_success (s : string)
| st_subheader (s : string)
| st_markdown (s : string)
| st_write_shape (nrows ncols : nat)   (* "Rows: `r`, Columns: `c`" *)
| st_dataframe (t : table)
| st_pyplot (fig : figure).

Global Instance dtype_eq_dec : EqDecision dtype.
Proof. solve_decision. Defined.

Global Instance table_eq_dec : EqDecision table.
Proof. solve_decision. Defined.

Global Instance figure_eq_dec : EqDecision figure.
Proof. solve_decision. Defined.

Global Instance element_eq_dec : EqDecision element.
Proof. solve_decision. Defined.

(** [st.selectbox(label, options, key=...)]: the option the user has
    picked, the first one at the start. *)
Definition selectbox (options : list string) (pick : nat) : string :=
  default (hd EmptyString options) (options !! pick).

(** *** Loading *)

(** [str.lower], on the letters A to Z; no other character becomes one of
    the characters of the two suffixes. *)
Definition lower_ascii (a : ascii) : ascii :=
  let k := nat_of_ascii a in
  if bool_decide (65 ≤ k ≤ 90)%nat then ascii_of_nat (k + 32) else a.

Fixpoint lower (s : string) : string :=
  match s with
  | EmptyString => EmptyString
  | String a s' => String (lower_ascii a) (lower s')
  end.

(** [str.endswith] *)
Fixpoint endswith (s suffix : string) : bool :=
  if decide (s = suffix) then true
  else match s with
       | EmptyString => false
       | String _ s' => endswith s' suffix
       end.

Record UploadedFile := mkUploadedFile {
  file_name : string;
  file_content : string
}.

(** What [pd.read_csv] or [pd.read_json] makes of a file: a frame of the
    data model (its cells are numbers, strings, timestamps or booleans); a
    frame with cells of another kind (lists, dicts, objects of mixed
    types), for which the model has no value; or an exception, with its
    message. *)
Inductive read_result :=
| ReadFrame (df : DataFrame)
| ReadOther
| ReadError (e : string).

Class Readers := {
  read_csv : UploadedFile → read_result;
  read_json : UploadedFile → read_result
}.

(** What [load_dataset] returns: [None], a frame of the model, or a frame
    of another kind. *)
Inductive loaded :=
| NoFrame
| AFrame (df : DataFrame)
| OtherFrame.

(** How a run, or a part of one, ends: at its end; with an exception, of
    the class named; or in a way that the model does not tell. *)
Inductive ending :=
| Done
| Raised (e : string)
| Unmodelled.

Global Instance loaded_eq_dec : EqDecision loaded.
Proof. solve_decision. Defined.

Global Instance ending_eq_dec : EqDecision ending.
Proof. solve_decision. Defined.

(** *** The histogram *)

Definition Qc_max (p q : Qc) : Qc := if decide (p ≤ q)%Qc then q else p.
Definition Qc_min (p q : Qc) : Qc := if decide (p ≤ q)%Qc then p else q.

(** The distance from the least to the greatest of the finite values. *)
Definition spread (data : list float64) : Qc :=
  match omap (λ x, match x with Finite q => Some q | _ => None end) data with
  | [] => 0%Qc
  | q :: qs => (foldr Qc_max q qs - foldr Qc_min q qs)%Qc
  end.

(** [ax.hist(data, bins=20)].  numpy raises [ValueError] when the least or
    the greatest value is infinite (the range is not finite).  On finite
    data the histogram is drawn; where the spread of the data is so large
    that its float64 arithmetic can overflow, the model does not tell. *)
Definition hist_ending (data : list float64) : ending :=
  if forallb is_finite data then
    if bool_decide (spread data < Qc_of_Z (2 ^ 1023))%Qc then Done
    else Unmodelled
  else Raised "ValueError".

(** The numbers among the values of a column. *)
Definition numbers (data : list value) : list float64 :=
  omap (λ v, match v with VNum x => Some x | _ => None end) data.

Section pages.
Context {F : Float64Ops} {io : Readers} {P : Parsers}.

(** What is returned and the elements written. *)
Definition load_dataset (uploaded_file : option UploadedFile)
    : loaded * list element :=
  match uploaded_file with
  | None => (NoFrame, [])
  | Some f =>
      let filename := lower (file_name f) in
      if endswith filename ".csv" then
        match read_csv f with
        | ReadFrame df => (AFrame df, [])
        | ReadOther => (OtherFrame, [])
        | ReadError e => (NoFrame, [st_error ("Error loading file: " +:+ e)])
        end
      else if endswith filename ".json" then
        match read_json f with
        | ReadFrame df => (AFrame df, [])
        | ReadOther => (OtherFrame, [])
        | ReadError e => (NoFrame, [st_error ("Error loading file: " +:+ e)])
        end
      else
        (NoFrame,
         [st_error "Unsupported file type. Please upload a CSV or JSON file."])
  end.

(** [df.isna().sum()], column by column. *)
Definition missing_values (df : DataFrame) : list (string * nat) :=
  (λ nc, (nc.1, isna_sum (col_cells nc.2))) <$> columns df.

Definition show_missing_values (df : DataFrame) : list element :=
  [st_subheader "Missing Values per Column";
   st_dataframe (Counts "Missing Values" (missing_values df))].

(** [{col: df[col].nunique() for col in categorical_cols}] *)
Definition unique_counts (df : DataFrame) : list (string * nat) :=
  (λ col, (col, nunique (series df col))) <$> categorical_cols df.

(** The elements written and how the function ends.  [df.describe()]
    raises [ValueError] on a frame without columns.  With a repeated column
    name [df[col]] is a frame, not a Series: the model does not tell. *)
Definition show_data_analysis (df : DataFrame) : list element * ending :=
  let shape_and_types :=
    [st_subheader "Data Analysis";
     st_markdown "**Dataset Shape**";
     st_write_shape (nrows df) (length (columns df));
     st_markdown "**Column Data Types**";
     st_dataframe (Dtypes (prod_map id dtype_of <$> columns df));
     st_markdown "**Descriptive Statistics (Numeric Columns)**"] in
  if bool_decide (columns df = []) then (shape_and_types, Raised "ValueError")
  else if bool_decide (NoDup (columns df).*1) then
    (shape_and_types ++
     [st_dataframe (Describe df)] ++
     (if bool_decide (0 < length (categorical_cols df))%nat then
        [st_markdown "**Unique Value Counts (Categorical Columns)**";
         st_dataframe (Counts "Unique Values" (unique_counts df))]
      else
        [st_info "No categorical columns detected for unique value counts."]) ++
     (if bool_decide (1 < length (numeric_cols df))%nat then
        [st_markdown "**Correlation Matrix (Numeric Columns)**";
         st_dataframe
           (Corr (filter (λ nc, is_numeric nc.2 = true) (columns df)))]
      else
        [st_info "Not enough numeric columns to compute a correlation matrix."]),
     Done)
  else (shape_and_types, Unmodelled).

(** The elements written and how the function ends: an exception of
    [ax.hist] ends it before the bar chart. *)
Definition show_visualizations (hist_col bar_col : nat) (df : DataFrame)
    : list element * ending :=
  let numeric_cols := numeric_cols df in
  let categorical_cols := categorical_cols df in
  let header := [st_subheader "Visualizations"] in
  if bool_decide (NoDup (columns df).*1) then
    let '(histogram, e) :=
      if bool_decide (numeric_cols ≠ []) then
        let num_col := selectbox numeric_cols hist_col in
        let data := dropna (series df num_col) in
        match hist_ending (numbers data) with
        | Done => ([st_pyplot (Hist num_col data 20)], Done)
        | e => ([], e)
        end
      else ([st_info "No numeric columns available for histogram."], Done) in
    match e with
    | Done =>
        (header ++
         [st_markdown "**Histogram (Numeric Column)**"] ++ histogram ++
         [st_markdown "**Bar Chart (Categorical Column)**"] ++
         (if bool_decide (categorical_cols ≠ []) then
            let cat_col := selectbox categorical_cols bar_col in
            [st_pyplot
               (Bar cat_col (take 20 (value_counts (series df cat_col))))]
          else [st_info "No categorical columns available for bar chart."]),
         Done)
    | _ =>
        (header ++ [st_markdown "**Histogram (Numeric Column)**"], e)
    end
  else (header, Unmodelled).

(** What the user has set when a run starts. *)
Record Inputs := mkInputs {
  uploaded_file : option UploadedFile;  (* the file uploader *)
  clean_clicked : bool;                 (* [st.button("Clean Data")] *)
  hist_col : nat;                       (* the select box of key "hist_col" *)
  bar_col : nat                         (* the select box of key "bar_col" *)
}.

(** [st.session_state]: the value under "cleaned_df", if the key is there. *)
Definition session := option DataFrame.

(** One run: the page, the session state it leaves and how it ends.  An
    exception ends the run where it is raised; what was assigned to the
    session state before stays.  A frame of another kind, or one with a
    repeated column name (the readers give none), is beyond the model. *)
Definition main (i : Inputs) (s : session)
    : list element * session * ending :=
  let sidebar := [st_sidebar_title "Upload Data"] in
  match uploaded_file i with
  | None =>
      (sidebar ++ [st_info "👆 Please upload a CSV or JSON file to begin."],
       s, Done)
  | Some f =>
      let '(df, log) := load_dataset (Some f) in
      match df with
      | NoFrame =>
          (sidebar ++ log ++
           [st_warning "No data loaded. Please check your file."], s, Done)
      | OtherFrame => (sidebar ++ log, s, Unmodelled)
      | AFrame df =>
          if is_empty df then
            (sidebar ++ log ++
             [st_warning "No data loaded. Please check your file."], s, Done)
          else if negb (bool_decide (NoDup (columns df).*1)) then
            (sidebar ++ log, s, Unmodelled)
          else
            let preview :=
              [st_subheader "Raw Data Preview"; st_dataframe (Frame (head df))]
              ++ show_missing_values df ++ [st_subheader "Data Cleaning"] in
            let '(cleaning, s') :=
              if clean_clicked i then
                let cleaned_df := clean_data df in
                ([st_success "Data cleaning completed.";
                  st_subheader "Cleaned Data Preview";
                  st_dataframe (Frame (head cleaned_df))],
                 Some cleaned_df)
              else
                ([st_info "Click **Clean Data** to perform cleaning before analysis."]
                 ++ match s with
                    | Some c => [st_subheader "Last Cleaned Data Preview";
                                 st_dataframe (Frame (head c))]
                    | None => []
                    end,
                 s) in
            let df_for_analysis := default df s' in
            let '(analysis, e) := show_data_analysis df_for_analysis in
            match e with
            | Done =>
                let '(plots, e') :=
                  show_visualizations (hist_col i) (bar_col i)
                    df_for_analysis in
                (sidebar ++ log ++ preview ++ cleaning ++ analysis ++ plots,
                 s', e')
            | _ =>
                (sidebar ++ log ++ preview ++ cleaning ++ analysis, s', e)
            end
      end
  end.

(** A sequence of runs of one session, as far as the model tells: the
    pages with their endings, and the state at the end. *)
Fixpoint runs (trace : list Inputs) (s : session)
    : option (list (list element * ending) * session) :=
  match trace with
  | [] => Some ([], s)
  | i :: trace' =>
      let '(page, s', e) := main i s in
      if bool_decide (e = Unmodelled) then None
      else
        '(pages, s'') ← runs trace' s';
        Some ((page, e) :: pages, s'')
  end.
End pages.

(** A frame that [main] lets through: it was read from the file, as a
    frame of the model, and it has a row and a column. *)
Definition loads {io : Readers} (f : UploadedFile) (df : DataFrame) : Prop :=
  (load_dataset (Some f)).1 = AFrame df ∧ is_empty df = false.




(** The elements of a page that show data. *)
Definition shows_data (e : element) : bool :=
  match e with st_dataframe _ | st_pyplot _ | st_write_shape _ _ => true
             | _ => false end.

(** ** Worked examples: parsers, frames and a heap *)

Definition decimal_only : Parsers :=
  {| parse_number := parse_decimal; to_datetime := no_datetime |}.

Definition decimal_and_years : Parsers :=
  {| parse_number := parse_decimal; to_datetime := year_datetime |}.

Definition decimal_and_utc : Parsers :=
  {| parse_number := parse_decimal; to_datetime := utc_datetime |}.

(** A present number. *)
Definition num (z : Z) : option float64 := Some (Finite (Qc_of_Z z)).

Definition ex_mixed : DataFrame :=
  mkDataFrame [10; 11; 12; 13]
    [("n", Numeric [num 1; None; num 3; num 2]);
     ("s", Textual [Some "A"; None; Some "B"; Some "A"]);
     ("t", Temporal None [Some 5; None; Some 5; Some 7]);
     ("e", Numeric [None; None; None; None]);
     ("b", Boolean [true; false; true; true])]%string.

Definition ex_mean : DataFrame :=
  mkDataFrame [0; 1; 2] [("x", Numeric [num 1; None; num 3])]%string.

(** The two infinities and a gap: the float64 sum is [NaN]. *)
Definition ex_infinities : DataFrame :=
  mkDataFrame [0; 1; 2]
    [("x", Numeric [Some (Infinite false); Some (Infinite true); None])]%string.

(** Seven thirds is not a float64. *)
Definition ex_thirds : DataFrame :=
  mkDataFrame [0; 1; 2; 3] [("x", Numeric [num 1; num 2; num 4; None])]%string.

(** The float64 nearest to one tenth. *)
Definition tenth : float64 :=
  Finite (Q2Qc (3602879701896397 # 36028797018963968)).

Definition ex_tenths : DataFrame :=
  mkDataFrame [0; 1; 2; 3]
    [("x", Numeric [Some tenth; Some tenth; Some tenth; None])]%string.

Definition ex_tie : DataFrame :=
  mkDataFrame [0; 1; 2] [("c", Textual [Some "b"; None; Some "a"])]%string.

Definition ex_rows : DataFrame :=
  mkDataFrame [7; 8; 9]
    [("k", Numeric [num 1; num 2; num 1]);
     ("v", Textual [Some "x"; Some "y"; Some "x"])]%string.

Definition ex_no_columns : DataFrame := mkDataFrame [0; 1] [].

Definition ex_digits : DataFrame :=
  mkDataFrame [0; 1; 2] [("a", Textual [Some "1"; Some "2"; Some "3"])]%string.

Definition ex_abc : DataFrame :=
  mkDataFrame [0; 1; 2] [("a", Textual [Some "1"; Some "2"; Some "abc"])]%string.

Definition ex_years : DataFrame :=
  mkDataFrame [0; 1; 2]
    [("y", Textual [Some "2020"; Some "2021"; Some "2022"])]%string.

Definition ex_stamps : DataFrame :=
  mkDataFrame [0; 1; 2]
    [("ts", Textual [Some "2020-01-01T00:00:00+00:00"; None;
                     Some "2021-06-01T00:00:00+00:00"])]%string.

Definition ex_decimals : DataFrame :=
  mkDataFrame [0; 1] [("a", Textual [Some "1"; Some "1.0"])]%string.

Definition ex_blank : DataFrame :=
  mkDataFrame [0; 1; 2] [("a", Textual [Some ""; Some "1"; Some "3"])]%string.

Definition ex_settled : DataFrame :=
  mkDataFrame [4; 5; 6]
    [("a", Textual [Some "1"; None; Some "3"]);
     ("b", Textual [Some "x"; Some "y"; Some "x"])]%string.

Definition ex_header_only : DataFrame :=
  mkDataFrame []
    [("a", Textual []); ("n", Numeric []); ("b", Boolean [])]%string.

(** Readers for the examples: a .csv file holds the name of one of the
    frames above. *)
Definition ex_files : list (string * DataFrame) :=
  [("mixed", ex_mixed); ("rows", ex_rows); ("no_columns", ex_no_columns);
   ("infinities", ex_infinities)]%string.

Definition ex_readers : Readers :=
  {| read_csv f :=
       match getitem ex_files (file_content f) with
       | Some df => ReadFrame df
       | None => ReadError "No columns to parse from file"%string
       end;
     read_json f :=
       if decide (file_content f = "nested"%string) then ReadOther
       else ReadError "Expected object or value"%string |}.

Definition ex_upload : UploadedFile := mkUploadedFile "Rows.CSV" "rows".
Definition ex_upload_mixed : UploadedFile := mkUploadedFile "mixed.csv" "mixed".
Definition ex_upload_text : UploadedFile := mkUploadedFile "notes.txt" "rows".
Definition ex_upload_nested : UploadedFile :=
  mkUploadedFile "records.json" "nested".
Definition ex_upload_infinities : UploadedFile :=
  mkUploadedFile "inf.csv" "infinities".

(** The button clicked on [ex_upload]; then a second file and no click. *)
Definition ex_click : Inputs := mkInputs (Some ex_upload) true 0 0.
Definition ex_look : Inputs := mkInputs (Some ex_upload_mixed) false 0 0.
Definition ex_no_file : Inputs := mkInputs None true 0 0.
Definition ex_look_text : Inputs := mkInputs (Some ex_upload_text) false 0 0.
Definition ex_click_infinities : Inputs :=
  mkInputs (Some ex_upload_infinities) true 0 0.

(** The caller's heap: a frame object at 0 with one buffer at 1. *)
Definition ex_heap : heap :=
  <[0%nat := OFrame [0; 1; 2] [("x"%string, 1%nat)]]>
    (<[1%nat := OSeries (Numeric [num 1; None; num 3])]> ∅).

(** ** Tactics *)

Ltac run_it := apply (bool_decide_unpack _); vm_compute; exact I.

Ltac page_cases H :=
  repeat first
    [ by apply elem_of_nil in H
    | apply elem_of_cons in H as [H|H]
    | apply elem_of_app in H as [H|H] ];
  try discriminate H.

Ltac on_page := by repeat first [left | right].

Section engine_facts.
Context {F : Float64Ops}.

(** ** Series lemmas *)

Section series_facts.
Context {A : Type}.
Implicit Types (xs : list (option A)) (v : option A).

Lemma isna_any_true xs : isna_any xs = true ↔ None ∈ xs.
Proof.
  induction xs as [|[a|] xs IH]; simpl.
  - split; [done|]. by intros ?%elem_of_nil.
  - rewrite IH. split; [by constructor|]. by intros [?|?]%elem_of_cons.
  - split; [by constructor|done].
Qed.

Lemma isna_any_false xs : isna_any xs = false ↔ None ∉ xs.
Proof.
  rewrite <-isna_any_true. destruct (isna_any xs); naive_solver.
Qed.

Lemma notna_any_true xs : notna_any xs = true ↔ ∃ a, Some a ∈ xs.
Proof.
  induction xs as [|[a|] xs IH]; simpl.
  - split; [done|]. by intros [? ?%elem_of_nil].
  - split; [|done]. intros _. exists a. by constructor.
  - rewrite IH. split.
    + intros [a ?]. exists a. by constructor.
    + intros [a [?|?]%elem_of_cons]; [done|by exists a].
Qed.

Lemma notna_any_dropna xs : notna_any xs = true ↔ dropna xs ≠ [].
Proof.
  induction xs as [|[a|] xs IH]; simpl; [done|done|]. by rewrite IH.
Qed.

Lemma notna_any_false xs : notna_any xs = false ↔ Forall (λ x, x = None) xs.
Proof.
  induction xs as [|[a|] xs IH]; simpl.
  - split; [by constructor|done].
  - split; [done|]. by intros [? _]%Forall_cons.
  - rewrite IH. split; [by constructor|]. by intros [_ ?]%Forall_cons.
Qed.

Lemma length_fillna v xs : length (fillna v xs) = length xs.
Proof. apply length_fmap. Qed.

Lemma fillna_lookup_Some v xs i a :
  xs !! i = Some (Some a) → fillna v xs !! i = Some (Some a).
Proof. intros H. unfold fillna. by rewrite list_lookup_fmap, H. Qed.

Lemma fillna_lookup_None v xs i :
  xs !! i = Some None → fillna v xs !! i = Some v.
Proof. intros H. unfold fillna. by rewrite list_lookup_fmap, H. Qed.

Lemma fillna_None xs : fillna None xs = xs.
Proof.
  unfold fillna. induction xs as [|[a|] xs IH]; csimpl; by rewrite ?IH.
Qed.

Lemma fillna_id v xs : isna_any xs = false → fillna v xs = xs.
Proof.
  unfold fillna. induction xs as [|[a|] xs IH]; csimpl; [done| |done].
  intros H. by rewrite IH.
Qed.

Lemma fillna_all_missing v xs :
  notna_any xs = false → fillna v xs = replicate (length xs) v.
Proof.
  unfold fillna. induction xs as [|[a|] xs IH]; csimpl; [done|done|].
  intros H. by rewrite IH.
Qed.

Lemma isna_any_fillna a xs : isna_any (fillna (Some a) xs) = false.
Proof. induction xs as [|[b|] xs IH]; csimpl; by rewrite ?IH. Qed.
End series_facts.

Lemma notna_count_dropna xs : notna_count xs = length (dropna xs).
Proof.
  unfold notna_count, dropna. induction xs as [|[a|] xs IH]; [done| |].
  - rewrite filter_cons_True by done. csimpl. by rewrite IH.
  - rewrite filter_cons_False by done. done.
Qed.

Lemma mean_eq xs :
  notna_any xs = true →
  mean xs =
  (λ the_sum, div64 the_sum (length (dropna xs)))
    <$> sum64 (default (Finite 0) <$> xs).
Proof.
  intros Hne%notna_any_dropna. unfold mean, nansum.
  rewrite notna_count_dropna. by destruct (dropna xs).
Qed.

Lemma mean_all_missing xs : notna_any xs = false → mean xs = None.
Proof.
  intros H. unfold mean. rewrite notna_count_dropna.
  destruct (dropna xs) eqn:E; [done|].
  assert (notna_any xs = true) by (apply notna_any_dropna; by rewrite E).
  congruence.
Qed.

(** ** The mode *)

Section mode_facts.
Context {A : Type} {eq_dec : EqDecision A}.
Implicit Types (vals : list A) (xs : list (option A)).

Lemma elem_of_unique a vals : a ∈ unique vals ↔ a ∈ vals.
Proof.
  induction vals as [|b vals IH]; simpl; [done|].
  rewrite !elem_of_cons, list_elem_of_filter, IH.
  destruct (decide (a = b)); tauto.
Qed.

Lemma NoDup_unique vals : NoDup (unique vals).
Proof.
  induction vals as [|b vals IH]; simpl; constructor.
  - rewrite list_elem_of_filter. by intros [? _].
  - by apply NoDup_filter.
Qed.

Lemma unique_sublist vals : unique vals `sublist_of` vals.
Proof.
  induction vals as [|b vals IH]; simpl; [done|].
  constructor. etrans; [apply sublist_filter|done].
Qed.

Lemma unique_nil vals : unique vals = [] ↔ vals = [].
Proof. by destruct vals. Qed.

Lemma occurrences_le_max a vals :
  a ∈ vals → (occurrences a vals ≤ max_occurrences vals)%nat.
Proof.
  intros Ha. unfold max_occurrences. apply max_list_elem_of_le.
  apply list_elem_of_fmap. by exists a.
Qed.

Lemma max_occurrences_attained vals :
  vals ≠ [] → ∃ a, a ∈ vals ∧ occurrences a vals = max_occurrences vals.
Proof.
  intros Hne. unfold max_occurrences.
  assert ((λ a, occurrences a vals) <$> vals ≠ []) as Hne'.
  { by destruct vals. }
  apply max_list_elem_of, list_elem_of_fmap in Hne' as (a & Ha & ?).
  by exists a.
Qed.

Lemma elem_of_most_frequent a vals :
  a ∈ most_frequent vals ↔
  a ∈ vals ∧ occurrences a vals = max_occurrences vals.
Proof.
  unfold most_frequent. rewrite list_elem_of_filter, elem_of_unique.
  tauto.
Qed.

Lemma most_frequent_nonempty vals : vals ≠ [] → most_frequent vals ≠ [].
Proof.
  intros [a Ha]%max_occurrences_attained E.
  apply elem_of_most_frequent in Ha. rewrite E in Ha.
  by apply elem_of_nil in Ha.
Qed.

Context (R : relation A) `{!RelDecision R, !Total R, !Transitive R}.

Lemma mode_all_missing xs : notna_any xs = false → mode R xs = [].
Proof.
  intros H. unfold mode.
  destruct (dropna xs) eqn:E; [done|].
  assert (notna_any xs = true) by (apply notna_any_dropna; by rewrite E).
  congruence.
Qed.

Lemma mode_head xs :
  notna_any xs = true →
  ∃ m ms, mode R xs = m :: ms ∧ is_lowest_mode R m (dropna xs).
Proof.
  intros Hne%notna_any_dropna. unfold mode.
  pose proof (merge_sort_Permutation R (most_frequent (dropna xs))) as Hp.
  pose proof (StronglySorted_merge_sort R (most_frequent (dropna xs))) as Hs.
  destruct (merge_sort R (most_frequent (dropna xs))) as [|m ms] eqn:E.
  { apply Permutation_nil_l in Hp.
    by apply most_frequent_nonempty in Hne. }
  exists m, ms. split; [done|].
  assert (m ∈ most_frequent (dropna xs)) as Hm.
  { rewrite <-Hp. by constructor. }
  apply elem_of_most_frequent in Hm as [Hm Hmax].
  split_and!; [done| |].
  - intros a Ha. rewrite Hmax. by apply occurrences_le_max.
  - intros a Ha Hoc.
    assert (a ∈ m :: ms) as [Heq|Hin]%elem_of_cons.
    { rewrite Hp. apply elem_of_most_frequent. split; [done|congruence]. }
    + subst a. destruct (total R m m); done.
    + apply StronglySorted_inv in Hs as [_ Hall].
      rewrite Forall_forall in Hall. by apply Hall.
Qed.

Lemma fill_with_mode_no_missing xs :
  isna_any xs = false → fill_with_mode R xs = xs.
Proof. intros H. unfold fill_with_mode, mode_fill. by rewrite H. Qed.

Lemma fill_with_mode_all_missing xs :
  notna_any xs = false → fill_with_mode R xs = xs.
Proof.
  intros H. unfold fill_with_mode, mode_fill.
  rewrite mode_all_missing by done. by destruct (isna_any xs).
Qed.

Lemma fill_with_mode_fills xs :
  isna_any xs = true → notna_any xs = true →
  ∃ m, fill_with_mode R xs = fillna (Some m) xs ∧
       is_lowest_mode R m (dropna xs).
Proof.
  intros Hna Hval. unfold fill_with_mode, mode_fill. rewrite Hna.
  destruct (mode_head xs Hval) as (m & ms & -> & Hm). by exists m.
Qed.

Lemma fill_with_mode_complete xs :
  notna_any xs = true → isna_any (fill_with_mode R xs) = false.
Proof.
  intros Hval. destruct (isna_any xs) eqn:Hna.
  - destruct (fill_with_mode_fills xs Hna Hval) as (m & -> & _).
    apply isna_any_fillna.
  - by rewrite fill_with_mode_no_missing.
Qed.
End mode_facts.

Lemma fill_with_mean_no_missing xs :
  isna_any xs = false → fill_with_mean xs = xs.
Proof. intros H. unfold fill_with_mean, mean_fill. by rewrite H. Qed.

(** A mean that is [NaN] fills nothing. *)
Lemma fill_with_mean_nan xs : mean xs = None → fill_with_mean xs = xs.
Proof.
  intros H. unfold fill_with_mean, mean_fill. rewrite H.
  rewrite fillna_None. by destruct (isna_any xs).
Qed.

Lemma fill_with_mean_all_missing xs :
  notna_any xs = false → fill_with_mean xs = xs.
Proof. intros H. by apply fill_with_mean_nan, mean_all_missing. Qed.

Lemma fill_with_mean_fills xs m :
  isna_any xs = true → mean xs = Some m →
  fill_with_mean xs = fillna (Some m) xs.
Proof.
  intros Hna Hm. unfold fill_with_mean, mean_fill. by rewrite Hna, Hm.
Qed.

Lemma fill_with_mean_complete xs :
  is_Some (mean xs) → isna_any (fill_with_mean xs) = false.
Proof.
  intros [m Hm]. destruct (isna_any xs) eqn:Hna.
  - rewrite (fill_with_mean_fills xs m) by done. apply isna_any_fillna.
  - by rewrite fill_with_mean_no_missing.
Qed.

(** ** Loops over column names *)

Lemma apply_at_fst names f nc : (apply_at names f nc).1 = nc.1.
Proof. unfold apply_at. by case_decide. Qed.

Lemma apply_at_names names f cols : (apply_at names f <$> cols).*1 = cols.*1.
Proof.
  rewrite <-list_fmap_compose. apply list_fmap_ext.
  intros i nc _. apply apply_at_fst.
Qed.

Lemma unique_name cols n c1 c2 :
  NoDup cols.*1 → (n, c1) ∈ cols → (n, c2) ∈ cols → c1 = c2.
Proof.
  induction cols as [|[m c] cols IH]; csimpl; intros Hnd H1 H2.
  { by apply elem_of_nil in H1. }
  apply NoDup_cons in Hnd as [Hm Hnd].
  apply elem_of_cons in H1 as [H1|H1], H2 as [H2|H2]; simplify_eq.
  - done.
  - destruct Hm. apply list_elem_of_fmap. by exists (m, c2).
  - destruct Hm. apply list_elem_of_fmap. by exists (m, c1).
  - by apply IH.
Qed.

Lemma apply_at_absent n f cols :
  n ∉ cols.*1 → apply_at [n] f <$> cols = cols.
Proof.
  intros Hn. rewrite <-(list_fmap_id cols) at 2. apply list_fmap_ext.
  intros i nc Hi. unfold apply_at. rewrite decide_False; [done|].
  intros Heq%list_elem_of_singleton. apply Hn, list_elem_of_fmap.
  exists nc. split; [done|]. by apply list_elem_of_lookup_2 in Hi.
Qed.

(** With unique names, one iteration touches the column of that name and
    no other. *)
Lemma assign_fmap body cols n :
  NoDup cols.*1 → assign body cols n = apply_at [n] (run body) <$> cols.
Proof.
  unfold assign.
  induction cols as [|[m c] cols IH]; csimpl; intros Hnd; [done|].
  apply NoDup_cons in Hnd as [Hm Hnd].
  unfold apply_at at 1; simpl. destruct (decide (m = n)) as [->|Hne].
  - rewrite decide_True by (by constructor).
    rewrite apply_at_absent by done. unfold run.
    by destruct (body c).
  - rewrite decide_False by (by intros ?%list_elem_of_singleton).
    specialize (IH Hnd). destruct (getitem cols n) as [c'|]; simpl.
    + destruct (body c'); simpl; by rewrite <-IH.
    + by rewrite <-IH.
Qed.

Lemma for_each_fmap names body cols :
  NoDup cols.*1 → NoDup names →
  for_each names body cols = apply_at names (run body) <$> cols.
Proof.
  unfold for_each. revert cols.
  induction names as [|n names IH]; intros cols Hcols Hnames; simpl.
  { rewrite <-(list_fmap_id cols) at 1. apply list_fmap_ext.
    intros i nc _. unfold apply_at. rewrite decide_False; [done|].
    apply not_elem_of_nil. }
  apply NoDup_cons in Hnames as [Hn Hnames].
  rewrite assign_fmap by done.
  rewrite IH by (by rewrite ?apply_at_names).
  rewrite <-list_fmap_compose. apply list_fmap_ext.
  intros i [m c] _. unfold apply_at, compose; simpl.
  destruct (decide (m = n)) as [->|Hne].
  - rewrite (decide_True (P := n ∈ [n])) by (by constructor).
    simpl. rewrite decide_False by done.
    rewrite decide_True by (by constructor). done.
  - rewrite (decide_False (P := m ∈ [n]))
      by (by intros ?%list_elem_of_singleton).
    simpl. destruct (decide (m ∈ names)).
    + rewrite decide_True by (by constructor). done.
    + rewrite decide_False; [done|]. by intros [?|?]%elem_of_cons.
Qed.

(** A loop whose body leaves every column as it is leaves the frame as it
    is, whatever the names. *)
Lemma assign_id body cols n :
  Forall (λ nc, run body nc.2 = nc.2) cols → assign body cols n = cols.
Proof.
  unfold assign.
  induction cols as [|[m c] cols IH]; csimpl; intros Hf; [done|].
  apply Forall_cons in Hf as [Hc Hf]. simpl in Hc.
  destruct (decide (m = n)) as [->|Hne]; simpl.
  - unfold run in Hc. destruct (body c); simpl in *; [|done].
    by rewrite Hc.
  - specialize (IH Hf). destruct (getitem cols n) as [c'|]; simpl; [|done].
    destruct (body c'); simpl; [|done]. by rewrite IH.
Qed.

Lemma for_each_id names body cols :
  Forall (λ nc, run body nc.2 = nc.2) cols → for_each names body cols = cols.
Proof.
  unfold for_each. intros Hf.
  induction names as [|n names IH]; simpl; [done|].
  by rewrite assign_id.
Qed.

Lemma filter_names_NoDup (P : string * column → Prop)
    `{!∀ nc, Decision (P nc)} cols :
  NoDup cols.*1 → NoDup (filter P cols).*1.
Proof.
  intros Hnd. eapply sublist_NoDup; [done|].
  apply fmap_sublist, sublist_filter.
Qed.

Lemma elem_of_filter_names (P : string * column → Prop)
    `{!∀ nc, Decision (P nc)} cols n c :
  NoDup cols.*1 → (n, c) ∈ cols →
  n ∈ (filter P cols).*1 ↔ P (n, c).
Proof.
  intros Hnd Hin. rewrite list_elem_of_fmap. split.
  - intros ([m c'] & -> & [HP Hin']%list_elem_of_filter). simpl in *.
    by rewrite (unique_name cols m c c').
  - intros HP. exists (n, c). split; [done|].
    by apply list_elem_of_filter.
Qed.

Lemma prod_map_names (f : column → column) cols :
  (prod_map id f <$> cols).*1 = cols.*1.
Proof.
  rewrite <-list_fmap_compose. apply list_fmap_ext. by intros i [n c] _.
Qed.

(** ** Imputation, column by column *)

Lemma run_impute_numeric c :
  run impute_numeric c =
  match c with Numeric xs => Numeric (fill_with_mean xs) | _ => c end.
Proof.
  unfold run, fill_with_mean. destruct c as [xs| | |]; simpl; try done.
  by destruct (mean_fill xs).
Qed.

Lemma run_impute_categorical c :
  run impute_categorical c =
  match c with
  | Numeric xs => Numeric (fill_with_mode float64_le xs)
  | Temporal tz xs => Temporal tz (fill_with_mode Z.le xs)
  | Textual xs => Textual (fill_with_mode String.le xs)
  | Boolean xs => Boolean xs
  end.
Proof.
  unfold run, fill_with_mode. destruct c as [xs|tz xs|xs|xs]; simpl;
    try done; by destruct (mode_fill _ xs).
Qed.

Lemma impute_column_eq c :
  impute_column c =
  match c with
  | Numeric xs => Numeric (fill_with_mean xs)
  | Temporal tz xs => Temporal tz (fill_with_mode Z.le xs)
  | Textual xs => Textual (fill_with_mode String.le xs)
  | Boolean xs => Boolean xs
  end.
Proof.
  unfold impute_column. destruct c; simpl;
    by rewrite ?run_impute_numeric, ?run_impute_categorical.
Qed.

Lemma impute_numeric_is_numeric c :
  is_numeric (run impute_numeric c) = is_numeric c.
Proof. rewrite run_impute_numeric. by destruct c. Qed.

Lemma impute_columns df :
  NoDup (columns df).*1 →
  columns (impute df) = prod_map id impute_column <$> columns df.
Proof.
  intros Hnd. unfold impute, numeric_cols, categorical_cols; simpl.
  rewrite (for_each_fmap _ impute_numeric) by (by try apply filter_names_NoDup).
  rewrite for_each_fmap
    by (by rewrite ?apply_at_names; try apply filter_names_NoDup).
  rewrite <-list_fmap_compose. apply list_fmap_ext.
  intros i [n c] Hi%list_elem_of_lookup_2.
  unfold compose, apply_at at 2; simpl.
  unfold impute_column, prod_map; simpl.
  destruct (is_numeric c) eqn:Hc.
  - rewrite decide_True by (by eapply elem_of_filter_names).
    unfold apply_at; simpl. rewrite decide_False; [done|].
    intros Hin. eapply elem_of_filter_names in Hin; [|done..].
    simpl in Hin. congruence.
  - rewrite decide_False.
    2:{ intros Hin. eapply elem_of_filter_names in Hin; [|done..].
        simpl in Hin. congruence. }
    unfold apply_at; simpl.
    rewrite decide_True by (by eapply elem_of_filter_names). done.
Qed.

Lemma impute_lookup df i n c :
  NoDup (columns df).*1 →
  columns df !! i = Some (n, c) →
  columns (impute df) !! i = Some (n, impute_column c).
Proof.
  intros Hnd Hi. rewrite impute_columns by done.
  by rewrite list_lookup_fmap, Hi.
Qed.

Lemma isna_any_fmap {A B} (f : A → B) (xs : list (option A)) :
  isna_any (fmap (M:=option) f <$> xs) = isna_any xs.
Proof. induction xs as [|[a|] xs IH]; csimpl; by rewrite ?IH. Qed.

Lemma notna_any_fmap {A B} (f : A → B) (xs : list (option A)) :
  notna_any (fmap (M:=option) f <$> xs) = notna_any xs.
Proof. induction xs as [|[a|] xs IH]; csimpl; by rewrite ?IH. Qed.

Lemma isna_any_Boolean xs :
  isna_any ((λ b : bool, Some (VBool b)) <$> xs) = false.
Proof. induction xs as [|b xs IH]; csimpl; by rewrite ?IH. Qed.

Lemma impute_column_complete c :
  col_notna_any c = true → has_mean c = true →
  col_isna_any (impute_column c) = false.
Proof.
  unfold col_notna_any, col_isna_any. rewrite impute_column_eq.
  destruct c as [xs|tz xs|xs|xs]; simpl;
    rewrite ?isna_any_fmap, ?notna_any_fmap; intros H Hm.
  - apply fill_with_mean_complete. by apply bool_decide_eq_true in Hm.
  - apply fill_with_mode_complete; [apply _..|done].
  - apply fill_with_mode_complete; [apply _..|done].
  - apply isna_any_Boolean.
Qed.

Lemma impute_column_all_missing c :
  col_notna_any c = false → impute_column c = c.
Proof.
  unfold col_notna_any. rewrite impute_column_eq.
  destruct c as [xs|tz xs|xs|xs]; simpl;
    rewrite ?notna_any_fmap; intros H; [| | |done].
  - by rewrite fill_with_mean_all_missing.
  - rewrite fill_with_mode_all_missing; [done|apply _..|done].
  - rewrite fill_with_mode_all_missing; [done|apply _..|done].
Qed.

Lemma impute_column_nan c : has_mean c = false → impute_column c = c.
Proof.
  rewrite impute_column_eq. destruct c as [xs|tz xs|xs|xs]; simpl; try done.
  intros H%bool_decide_eq_false. rewrite fill_with_mean_nan; [done|].
  destruct (mean xs); [|done]. destruct H. by eexists.
Qed.

Lemma impute_column_no_missing c :
  col_isna_any c = false → impute_column c = c.
Proof.
  unfold col_isna_any. rewrite impute_column_eq.
  destruct c as [xs|tz xs|xs|xs]; simpl;
    rewrite ?isna_any_fmap; intros H; [| | |done].
  - by rewrite fill_with_mean_no_missing.
  - by rewrite fill_with_mode_no_missing.
  - by rewrite fill_with_mode_no_missing.
Qed.

Lemma fillna_filled_with {A} (v : A) (xs : list (option A)) :
  filled_with v xs (fillna (Some v) xs).
Proof.
  split; [apply length_fillna|]. intros j. split.
  - apply fillna_lookup_None.
  - intros a. apply fillna_lookup_Some.
Qed.

(** C2, as amended. In a numeric column with a missing and a non-missing
    cell, imputation puts one number into every missing cell and keeps the
    other cells: the float64 sum of the column, its missing cells counted
    as zero, divided in float64 by the number of non-missing cells.  When
    that sum is [NaN] the column is unchanged. *)
Theorem impute_numeric_with_mean df i n xs :
  NoDup (columns df).*1 →
  columns df !! i = Some (n, Numeric xs) →
  isna_any xs = true →
  notna_any xs = true →
  (∀ the_sum, sum64 (default (Finite 0) <$> xs) = Some the_sum →
     ∃ ys, columns (impute df) !! i = Some (n, Numeric ys) ∧
           filled_with (div64 the_sum (length (dropna xs))) xs ys) ∧
  (sum64 (default (Finite 0) <$> xs) = None →
     columns (impute df) !! i = Some (n, Numeric xs)).
Proof.
  intros Hnd Hi Hna Hval.
  rewrite (impute_lookup df i n (Numeric xs)) by done.
  rewrite impute_column_eq. pose proof (mean_eq xs Hval) as Hm. split.
  - intros the_sum Hs. rewrite Hs in Hm. simpl in Hm.
    exists (fillna (Some (div64 the_sum (length (dropna xs)))) xs). split.
    + by rewrite (fill_with_mean_fills xs _ Hna Hm).
    + apply fillna_filled_with.
  - intros Hs. rewrite Hs in Hm. simpl in Hm.
    by rewrite fill_with_mean_nan.
Qed.

(** C3, as amended. In a textual or temporal column with a missing and a
    non-missing cell, imputation puts one value into every missing cell and
    keeps the other cells; the value is a most frequent one among the
    non-missing cells and, among equally frequent values, the least in the
    order of the values. *)
Theorem impute_categorical_with_lowest_mode df :
  NoDup (columns df).*1 →
  (∀ i n xs, columns df !! i = Some (n, Textual xs) →
     isna_any xs = true → notna_any xs = true →
     ∃ m ys, columns (impute df) !! i = Some (n, Textual ys) ∧
             filled_with m xs ys ∧
             is_lowest_mode String.le m (dropna xs)) ∧
  (∀ i n tz xs, columns df !! i = Some (n, Temporal tz xs) →
     isna_any xs = true → notna_any xs = true →
     ∃ m ys, columns (impute df) !! i = Some (n, Temporal tz ys) ∧
             filled_with m xs ys ∧
             is_lowest_mode Z.le m (dropna xs)).
Proof.
  intros Hnd. split.
  - intros i n xs Hi Hna Hval.
    destruct (fill_with_mode_fills String.le xs Hna Hval) as (m & Hm & Hlow).
    exists m, (fillna (Some m) xs). split_and!; [|apply fillna_filled_with|done].
    rewrite (impute_lookup df i n (Textual xs)) by done.
    rewrite impute_column_eq. by rewrite Hm.
  - intros i n tz xs Hi Hna Hval.
    destruct (fill_with_mode_fills Z.le xs Hna Hval) as (m & Hm & Hlow).
    exists m, (fillna (Some m) xs). split_and!; [|apply fillna_filled_with|done].
    rewrite (impute_lookup df i n (Temporal tz xs)) by done.
    rewrite impute_column_eq. by rewrite Hm.
Qed.

(** ** Mask selection and duplicate rows *)

Lemma select_nil_l {A} (xs : list A) : select [] xs = [].
Proof. done. Qed.

Lemma select_nil_r {A} mask : select mask ([] : list A) = [].
Proof. by destruct mask. Qed.

Lemma select_cons {A} b mask (x : A) xs :
  select (b :: mask) (x :: xs) =
  if b then x :: select mask xs else select mask xs.
Proof.
  unfold select; simpl. destruct b.
  - by rewrite filter_cons_True.
  - by rewrite filter_cons_False.
Qed.

Lemma select_fmap {A B} (f : A → B) mask (xs : list A) :
  select mask (f <$> xs) = f <$> select mask xs.
Proof.
  revert xs. induction mask as [|b mask IH]; intros [|x xs]; try done.
  rewrite fmap_cons, !select_cons, IH. by destruct b.
Qed.

Lemma select_all_true {A} mask (xs : list A) :
  Forall (λ b, b = true) mask → length mask = length xs →
  select mask xs = xs.
Proof.
  revert xs. induction mask as [|b mask IH]; intros [|x xs] Hall Hlen;
    simplify_eq/=; [done|].
  apply Forall_cons in Hall as [-> Hall].
  rewrite select_cons. f_equal. by apply IH.
Qed.

Lemma length_select {A B} mask (xs : list A) (ys : list B) :
  length xs = length ys → length (select mask xs) = length (select mask ys).
Proof.
  revert xs ys. induction mask as [|b mask IH]; intros [|x xs] [|y ys] Hlen;
    simplify_eq/=; rewrite ?select_nil_l, ?select_nil_r; try done.
  rewrite !select_cons. destruct b; simpl; auto.
Qed.

Lemma fmap_seq_lookup {A} (d : A) (xs : list A) :
  (λ j, default d (xs !! j)) <$> seq 0 (length xs) = xs.
Proof.
  apply list_eq. intros i. rewrite list_lookup_fmap.
  destruct (xs !! i) as [x|] eqn:Hi.
  - rewrite lookup_seq_lt by (by eapply lookup_lt_Some). simpl.
    by rewrite Hi.
  - rewrite lookup_seq_ge; [done|]. by apply lookup_ge_None.
Qed.

Lemma select_positions {A} (d : A) mask (xs : list A) :
  select mask xs =
  (λ j, default d (xs !! j)) <$> select mask (seq 0 (length xs)).
Proof. by rewrite <-select_fmap, fmap_seq_lookup. Qed.

Lemma col_cells_select mask c :
  col_cells (col_select mask c) = select mask (col_cells c).
Proof. destruct c; simpl; by rewrite select_fmap. Qed.

Lemma col_length_select mask c :
  length mask = col_length c →
  col_length (col_select mask c) = length (select mask mask).
Proof.
  intros Hlen. unfold col_length. rewrite col_cells_select.
  by apply length_select.
Qed.

(** The rows of a frame whose columns went through the same mask are the
    rows selected by that mask: rows leave as a whole. *)
Lemma rows_select mask idx cols :
  length idx = length mask →
  Forall (λ nc, col_length nc.2 = length mask) cols →
  rows (mkDataFrame (select mask idx) (prod_map id (col_select mask) <$> cols))
  = select mask (rows (mkDataFrame idx cols)).
Proof.
  intros Hidx Hcols. unfold rows, nrows; simpl.
  rewrite select_fmap, Hidx.
  set (S := select mask (seq 0 (length mask))).
  assert (length (select mask idx) = length S) as ->.
  { apply length_select. by rewrite length_seq. }
  apply list_eq. intros i. rewrite !list_lookup_fmap.
  destruct (S !! i) as [j|] eqn:Hj.
  - rewrite lookup_seq_lt by (by eapply lookup_lt_Some). simpl. f_equal.
    unfold row_at. rewrite <-list_fmap_compose. apply list_fmap_ext.
    intros k [n c] Hk%list_elem_of_lookup_2. simpl.
    rewrite Forall_forall in Hcols. specialize (Hcols _ Hk). simpl in Hcols.
    rewrite col_cells_select, (select_positions None).
    fold (col_length c). rewrite Hcols. fold S.
    by rewrite list_lookup_fmap, Hj.
  - rewrite lookup_seq_ge; [done|]. by apply lookup_ge_None.
Qed.

Section duplicated_facts.
Context {A : Type} {eq_dec : EqDecision A}.
Implicit Types (seen xs : list A).

Lemma length_duplicated_from seen xs : length (duplicated_from seen xs) = length xs.
Proof.
  revert seen. induction xs as [|x xs IH]; intros seen; simpl; [done|].
  case_decide; simpl; by rewrite IH.
Qed.

Lemma select_not_duplicated seen xs :
  select (negb <$> duplicated_from seen xs) xs =
  filter (λ x, x ∉ seen) (unique xs).
Proof.
  revert seen. induction xs as [|x xs IH]; intros seen; simpl; [done|].
  case_decide as Hx; csimpl; rewrite select_cons, IH.
  - rewrite filter_cons_False by (intros Hn; by apply Hn).
    rewrite list_filter_filter. apply list_filter_iff.
    intros y. split; [|by intros [? _]].
    intros Hy. split; [done|]. by intros ->.
  - rewrite filter_cons_True by done. f_equal.
    rewrite list_filter_filter. apply list_filter_iff.
    intros y. rewrite not_elem_of_cons. tauto.
Qed.

(** A position is marked exactly when its value occurs at an earlier
    position (or was seen before the list began). *)
Lemma duplicated_from_lookup seen xs i x :
  xs !! i = Some x →
  duplicated_from seen xs !! i = Some true ↔
  x ∈ seen ∨ ∃ j, (j < i)%nat ∧ xs !! j = Some x.
Proof.
  revert seen i. induction xs as [|y xs IH]; intros seen i Hi; [done|].
  destruct i as [|i]; simplify_eq/=.
  - case_decide as Hx; simpl.
    + split; [intros _; by left|done].
    + split; [done|]. intros [?|(j & ? & _)]; [done|lia].
  - case_decide as Hy; simpl; rewrite IH by done.
    + split.
      * intros [?|(j & Hj & Hx)]; [by left|].
        right. exists (S j). split; [lia|done].
      * intros [?|(j & Hj & Hx)]; [by left|].
        destruct j as [|j]; simplify_eq/=; [by left|].
        right. exists j. split; [lia|done].
    + split.
      * intros [[->|?]%elem_of_cons|(j & Hj & Hx)].
        -- right. exists 0%nat. split; [lia|done].
        -- by left.
        -- right. exists (S j). split; [lia|done].
      * intros [?|(j & Hj & Hx)]; [left; by constructor|].
        destruct j as [|j]; simplify_eq/=; [left; by constructor|].
        right. exists j. split; [lia|done].
Qed.
End duplicated_facts.

(** ** Duplicate-row elimination *)

Lemma length_rows df : length (rows df) = nrows df.
Proof. unfold rows. by rewrite length_fmap, length_seq. Qed.

Lemma length_duplicated df : length (duplicated df) = nrows df.
Proof. unfold duplicated. by rewrite length_duplicated_from, length_rows. Qed.

Lemma is_empty_false df :
  is_empty df = false → index df ≠ [] ∧ columns df ≠ [].
Proof.
  unfold is_empty. intros H%bool_decide_eq_false.
  split; intros E; apply H; [by left|by right].
Qed.

Lemma filter_not_in_nil {A} `{EqDecision A} (xs : list A) :
  filter (λ x, x ∉ []) xs = xs.
Proof.
  induction xs as [|x xs IH]; [done|].
  rewrite filter_cons_True by apply not_elem_of_nil. by rewrite IH.
Qed.

Lemma drop_duplicates_rows df :
  wf df → columns df ≠ [] →
  rows (drop_duplicates df) = select (negb <$> duplicated df) (rows df).
Proof.
  intros [_ Hlen] Hcols. unfold drop_duplicates.
  destruct (is_empty df) eqn:He.
  - apply bool_decide_eq_true in He as [He|He]; [|done].
    unfold rows, nrows. rewrite He. simpl. by rewrite select_nil_r.
  - destruct df as [idx cols]; simpl in *.
    apply rows_select.
    + by rewrite length_fmap, length_duplicated.
    + eapply Forall_impl; [done|]. intros nc Hnc. simpl in Hnc.
      by rewrite Hnc, length_fmap, length_duplicated.
Qed.

Lemma drop_duplicates_unique df :
  wf df → columns df ≠ [] →
  rows (drop_duplicates df) = unique (rows df).
Proof.
  intros Hwf Hcols. rewrite drop_duplicates_rows by done.
  unfold duplicated. by rewrite select_not_duplicated, filter_not_in_nil.
Qed.

Lemma drop_duplicates_wf df : wf df → wf (drop_duplicates df).
Proof.
  intros Hwf. unfold drop_duplicates.
  destruct (is_empty df); [done|].
  destruct Hwf as [Hnd Hlen]. split; simpl.
  - by rewrite prod_map_names.
  - apply Forall_fmap. eapply Forall_impl; [done|].
    intros [n c] Hc. simpl in *.
    set (keep := negb <$> duplicated df).
    assert (length keep = length (index df)) as Hk.
    { unfold keep. by rewrite length_fmap, length_duplicated. }
    rewrite col_length_select by congruence.
    apply length_select. congruence.
Qed.

Lemma reset_index_rows df : rows (reset_index df) = rows df.
Proof.
  unfold rows, reset_index, nrows; simpl.
  by rewrite length_fmap, length_seq.
Qed.

Lemma reset_index_wf df : wf df → wf (reset_index df).
Proof.
  intros [Hnd Hlen]. split; simpl; [done|].
  eapply Forall_impl; [done|]. intros nc Hnc. simpl in *.
  by rewrite length_fmap, length_seq.
Qed.

Lemma drop_duplicates_nrows df :
  wf df → columns df ≠ [] →
  nrows (drop_duplicates df) = length (unique (rows df)).
Proof.
  intros Hwf Hcols. by rewrite <-drop_duplicates_unique, length_rows.
Qed.

(** C4, as amended.  For a frame with at least one column, dropping
    duplicates keeps the rows in order, each distinct row once, at its first
    occurrence: a row goes exactly when an equal row (missing cells equal to
    missing cells) stands before it.  The result is labelled 0, 1, 2, ... *)
Theorem drop_duplicates_keeps_first_occurrences df :
  wf df → columns df ≠ [] →
  let df' := reset_index (drop_duplicates df) in
  rows df' = unique (rows df) ∧
  rows df' = select (negb <$> duplicated df) (rows df) ∧
  (∀ i r, rows df !! i = Some r →
     duplicated df !! i = Some true ↔
     ∃ j, (j < i)%nat ∧ rows df !! j = Some r) ∧
  NoDup (rows df') ∧
  rows df' `sublist_of` rows df ∧
  (∀ r, r ∈ rows df' ↔ r ∈ rows df) ∧
  index df' = Z.of_nat <$> seq 0 (length (rows df')) ∧
  (columns df').*1 = (columns df).*1 ∧
  wf df'.
Proof.
  intros Hwf Hcols df'.
  assert (rows df' = unique (rows df)) as Hrows.
  { unfold df'. by rewrite reset_index_rows, drop_duplicates_unique. }
  split_and!; [done| | | | | | | |].
  - unfold df'. by rewrite reset_index_rows, drop_duplicates_rows.
  - intros i r Hi. unfold duplicated.
    rewrite (duplicated_from_lookup [] (rows df) i r Hi).
    split; [|by right]. intros [?%elem_of_nil|?]; done.
  - rewrite Hrows. apply NoDup_unique.
  - rewrite Hrows. apply unique_sublist.
  - intros r. rewrite Hrows. apply elem_of_unique.
  - unfold df' at 1. simpl. rewrite Hrows.
    by rewrite drop_duplicates_nrows.
  - unfold df', reset_index, drop_duplicates; simpl.
    destruct (is_empty df); [done|]. simpl. apply prod_map_names.
  - by apply reset_index_wf, drop_duplicates_wf.
Qed.

(** ** Dtype coercion *)

Section coercion_facts.
Context {P : Parsers}.
Implicit Types (xs : list (option string)) (ys : list (option float64)).


Lemma to_numeric_Some xs ys :
  to_numeric xs = Some ys ↔ Forall2 (reads_as) xs ys.
Proof.
  unfold to_numeric. rewrite mapM_Some.
  split; intros H; (eapply Forall2_impl; [exact H|]);
    intros [s|] y; simpl; congruence.
Qed.


Lemma to_numeric_None xs :
  to_numeric xs = None ↔ ∃ s, Some s ∈ xs ∧ parse_number s = None.
Proof.
  unfold to_numeric. rewrite mapM_None, Exists_exists. split.
  - intros ([s|] & Hs & Hp); [by exists s|done].
  - intros (s & Hs & Hp). by exists (Some s).
Qed.

Lemma coerce_column_not_object c :
  is_object c = false → coerce_column c = c.
Proof. by destruct c. Qed.

Lemma coerce_log_numeric xs ys :
  to_numeric xs = Some ys →
  coerce_log (Textual xs) = (Some (Numeric ys), [TryNumeric]).
Proof.
  intros H. unfold coerce_log, call_to_numeric, to_numeric_ignore.
  by rewrite H.
Qed.

Lemma coerce_log_not_numeric xs :
  to_numeric xs = None →
  coerce_log (Textual xs) =
  (if negb (is_tz_aware (to_datetime xs) || is_object (to_datetime xs))
   then Some (to_datetime xs) else None, [TryNumeric; TryDatetime]).
Proof.
  intros H.
  unfold coerce_log, call_to_numeric, call_to_datetime, to_numeric_ignore.
  rewrite H. unfold mbind, traced_bind, mret, traced_ret. simpl.
  by destruct (negb _).
Qed.

Lemma coerce_column_numeric xs ys :
  to_numeric xs = Some ys → coerce_column (Textual xs) = Numeric ys.
Proof.
  intros H. unfold coerce_column, run, coerce_body.
  by rewrite (coerce_log_numeric xs ys).
Qed.

Lemma coerce_column_not_numeric xs :
  to_numeric xs = None →
  coerce_column (Textual xs) =
  if negb (is_tz_aware (to_datetime xs) || is_object (to_datetime xs))
  then to_datetime xs else Textual xs.
Proof.
  intros H. unfold coerce_column, run, coerce_body.
  rewrite coerce_log_not_numeric by done. simpl. by destruct (negb _).
Qed.

(** A column is examined once: coercing the outcome changes nothing. *)
Lemma coerce_column_idemp c : coerce_column (coerce_column c) = coerce_column c.
Proof.
  destruct (is_object c) eqn:Hc.
  2:{ by rewrite !(coerce_column_not_object c). }
  destruct c as [| |xs|]; try done.
  destruct (to_numeric xs) as [ys|] eqn:Hn.
  - by rewrite (coerce_column_numeric xs ys).
  - rewrite coerce_column_not_numeric by done.
    destruct (negb _) eqn:Hd.
    + apply coerce_column_not_object.
      apply negb_true_iff, orb_false_iff in Hd as [_ ?]. done.
    + rewrite coerce_column_not_numeric by done. by rewrite Hd.
Qed.

Lemma coerce_columns df :
  NoDup (columns df).*1 →
  columns (coerce df) = prod_map id coerce_column <$> columns df.
Proof.
  intros Hnd. unfold coerce; simpl.
  rewrite for_each_fmap by done. apply list_fmap_ext.
  intros i [n c] Hi%list_elem_of_lookup_2. unfold apply_at; simpl.
  rewrite decide_True; [done|]. apply list_elem_of_fmap. by exists (n, c).
Qed.

Lemma coerce_lookup df i n c :
  NoDup (columns df).*1 →
  columns df !! i = Some (n, c) →
  columns (coerce df) !! i = Some (n, coerce_column c).
Proof.
  intros Hnd Hi. rewrite coerce_columns by done.
  by rewrite list_lookup_fmap, Hi.
Qed.


(** C10. A textual column whose non-missing cells all fail the numeric
    reading and which the date parser returns as timezone-aware is not made
    temporal; with at least one non-missing cell it stays the textual
    column it was. *)
Theorem tz_aware_datetime_is_rejected df i n xs tz ts :
  NoDup (columns df).*1 →
  columns df !! i = Some (n, Textual xs) →
  (∀ s, Some s ∈ xs → parse_number s = None) →
  to_datetime xs = Temporal (Some tz) ts →
  ∃ c, columns (coerce df) !! i = Some (n, c) ∧
       (∀ tz' ts', c ≠ Temporal tz' ts') ∧
       (notna_any xs = true → c = Textual xs).
Proof.
  intros Hnd Hi Hfail Hdt.
  rewrite (coerce_lookup df i n (Textual xs)) by done.
  eexists. split; [done|].
  destruct (to_numeric xs) as [ys|] eqn:Hn.
  - rewrite (coerce_column_numeric xs ys) by done. split; [done|].
    intros [s Hs]%notna_any_true.
    assert (to_numeric xs = None); [|congruence].
    apply to_numeric_None. exists s. split; [done|]. by apply Hfail.
  - rewrite coerce_column_not_numeric by done. rewrite Hdt. simpl. done.
Qed.
End coercion_facts.


(** ** Fixed points of the stages *)

Lemma col_length_cells c :
  col_length c =
  match c with
  | Numeric xs => length xs
  | Temporal _ xs => length xs
  | Textual xs => length xs
  | Boolean xs => length xs
  end.
Proof. unfold col_length. destruct c; simpl; by rewrite length_fmap. Qed.

Lemma impute_numeric_settled c : settled c → run impute_numeric c = c.
Proof.
  unfold settled, col_isna_any, col_notna_any. rewrite run_impute_numeric.
  destruct c as [xs|tz xs|xs|xs]; simpl; [|done..].
  rewrite isna_any_fmap, notna_any_fmap. intros [H|H].
  - by rewrite fill_with_mean_no_missing.
  - by rewrite fill_with_mean_all_missing.
Qed.

Lemma impute_categorical_settled c :
  settled c → run impute_categorical c = c.
Proof.
  unfold settled, col_isna_any, col_notna_any.
  rewrite run_impute_categorical.
  destruct c as [xs|tz xs|xs|xs]; simpl; [| | |done];
    rewrite isna_any_fmap, notna_any_fmap; intros [H|H];
    first [ by rewrite fill_with_mode_no_missing
          | rewrite fill_with_mode_all_missing; [done|apply _..|done] ].
Qed.

Lemma impute_settled df : Forall (λ nc, settled nc.2) (columns df) → impute df = df.
Proof.
  intros Hs. unfold impute. destruct df as [idx cols]; simpl in *. f_equal.
  rewrite (for_each_id _ impute_numeric).
  2:{ eapply Forall_impl; [done|]. intros nc. apply impute_numeric_settled. }
  apply for_each_id.
  eapply Forall_impl; [done|]. intros nc. apply impute_categorical_settled.
Qed.

Lemma fill_with_mean_length xs : length (fill_with_mean xs) = length xs.
Proof.
  unfold fill_with_mean, mean_fill.
  destruct (isna_any xs); simpl; by rewrite ?length_fillna.
Qed.

Lemma fill_with_mode_length {A} `{EqDecision A} (R : relation A)
    `{!RelDecision R} (xs : list (option A)) :
  length (fill_with_mode R xs) = length xs.
Proof.
  unfold fill_with_mode, mode_fill. destruct (isna_any xs); [|done].
  destruct (mode R xs); simpl; by rewrite ?length_fillna.
Qed.

Lemma impute_column_length c : col_length (impute_column c) = col_length c.
Proof.
  rewrite impute_column_eq, !col_length_cells.
  destruct c; simpl; by rewrite ?fill_with_mean_length, ?fill_with_mode_length.
Qed.

Lemma impute_wf df : wf df → wf (impute df).
Proof.
  intros [Hnd Hlen]. split.
  - by rewrite impute_columns, prod_map_names.
  - rewrite impute_columns by done. apply Forall_fmap.
    eapply Forall_impl; [done|]. intros [n c] Hc. simpl in *.
    by rewrite impute_column_length.
Qed.

Lemma duplicated_from_NoDup {A} `{EqDecision A} (seen xs : list A) :
  NoDup xs → (∀ x, x ∈ xs → x ∉ seen) →
  Forall (λ b, b = true) (negb <$> duplicated_from seen xs).
Proof.
  intros Hnd. revert seen.
  induction Hnd as [|x xs Hx Hnd IH]; intros seen Hseen; csimpl; [done|].
  rewrite decide_False by (apply Hseen; by constructor).
  csimpl. constructor; [done|]. apply IH.
  intros y Hy [->|?]%elem_of_cons; [done|].
  by apply (Hseen y); [constructor|].
Qed.

Lemma col_select_all mask c :
  Forall (λ b, b = true) mask → length mask = col_length c →
  col_select mask c = c.
Proof.
  rewrite col_length_cells. intros Hall Hlen.
  destruct c; simpl; by rewrite select_all_true.
Qed.

Lemma drop_duplicates_NoDup df :
  wf df → NoDup (rows df) → drop_duplicates df = df.
Proof.
  intros [_ Hlen] Hnd. unfold drop_duplicates.
  destruct (is_empty df); [done|].
  set (keep := negb <$> duplicated df).
  assert (Forall (λ b, b = true) keep) as Hall.
  { apply duplicated_from_NoDup; [done|]. intros r _. apply not_elem_of_nil. }
  assert (length keep = length (index df)) as Hk.
  { unfold keep. by rewrite length_fmap, length_duplicated. }
  destruct df as [idx cols]; simpl in *. f_equal.
  - by apply select_all_true.
  - rewrite <-(list_fmap_id cols) at 2. apply list_fmap_ext.
    intros i [n c] Hi. unfold prod_map; simpl. f_equal.
    apply col_select_all; [done|].
    rewrite Forall_lookup in Hlen. specialize (Hlen _ _ Hi). simpl in Hlen.
    congruence.
Qed.

Lemma DataFrame_ext df1 df2 :
  index df1 = index df2 → columns df1 = columns df2 → df1 = df2.
Proof. destruct df1, df2; simpl; by intros -> ->. Qed.

Lemma reset_index_id df :
  index df = Z.of_nat <$> seq 0 (nrows df) → reset_index df = df.
Proof. intros H. unfold reset_index. destruct df; simpl in *. by rewrite <-H. Qed.

Section clean_facts.
Context {P : Parsers}.



Lemma coerce_column_length c :
  keeps_length → col_length (coerce_column c) = col_length c.
Proof.
  intros Hdt. destruct (is_object c) eqn:Hc.
  2:{ by rewrite coerce_column_not_object. }
  destruct c as [| |xs|]; try done.
  destruct (to_numeric xs) as [ys|] eqn:Hn.
  - rewrite (coerce_column_numeric xs ys) by done.
    apply to_numeric_Some, Forall2_length in Hn.
    rewrite !col_length_cells. congruence.
  - rewrite coerce_column_not_numeric by done.
    destruct (negb _); [|done]. rewrite Hdt. by rewrite col_length_cells.
Qed.

Lemma coerce_wf df : keeps_length → wf df → wf (coerce df).
Proof.
  intros Hdt [Hnd Hlen]. split.
  - by rewrite coerce_columns, prod_map_names.
  - rewrite coerce_columns by done. apply Forall_fmap.
    eapply Forall_impl; [done|]. intros [n c] Hc. simpl in *.
    by rewrite coerce_column_length.
Qed.

(** Row alignment and unique names survive every stage. *)
Lemma clean_data_wf df : keeps_length → wf df → wf (clean_data df).
Proof.
  intros Hdt Hwf. unfold clean_data.
  by apply coerce_wf, reset_index_wf, drop_duplicates_wf, impute_wf.
Qed.

Lemma coerce_idemp df :
  NoDup (columns df).*1 → coerce (coerce df) = coerce df.
Proof.
  intros Hnd.
  assert (NoDup (columns (coerce df)).*1) as Hnd'.
  { by rewrite coerce_columns, prod_map_names. }
  apply DataFrame_ext; [done|].
  rewrite (coerce_columns (coerce df)) by done.
  rewrite coerce_columns by done.
  rewrite <-list_fmap_compose. apply list_fmap_ext.
  intros i [n c] _. unfold compose, prod_map; simpl.
  by rewrite coerce_column_idemp.
Qed.

Lemma clean_data_index df :
  index (clean_data df) = Z.of_nat <$> seq 0 (nrows (clean_data df)).
Proof.
  unfold clean_data, coerce, nrows; simpl.
  by rewrite length_fmap, length_seq.
Qed.

(** C7, as amended.  When the cleaned frame has no two equal rows and no
    column that mixes missing and non-missing cells, cleaning it again
    gives it back: nothing is filled, no row goes, no column is re-typed. *)
Theorem clean_data_idempotent_on_settled_output df :
  keeps_length →
  wf df →
  NoDup (rows (clean_data df)) →
  Forall (λ nc, settled nc.2) (columns (clean_data df)) →
  clean_data (clean_data df) = clean_data df.
Proof.
  intros Hdt Hwf Hrows Hsettled.
  pose proof (clean_data_wf df Hdt Hwf) as Hwf'.
  unfold clean_data at 1.
  rewrite impute_settled by done.
  rewrite drop_duplicates_NoDup by done.
  rewrite reset_index_id by apply clean_data_index.
  unfold clean_data. apply coerce_idemp.
  by apply reset_index_wf, drop_duplicates_wf, impute_wf.
Qed.
End clean_facts.

(** ** Empty frames *)

Lemma is_empty_true df :
  is_empty df = true ↔ index df = [] ∨ columns df = [].
Proof. unfold is_empty. apply bool_decide_eq_true. Qed.

Lemma empty_frame_settled df :
  wf df → is_empty df = true → Forall (λ nc, settled nc.2) (columns df).
Proof.
  intros [_ Hlen] [Hidx|Hcols]%is_empty_true.
  - eapply Forall_impl; [done|]. intros [n c] Hc. simpl in *.
    rewrite Hidx in Hc. left. unfold col_isna_any.
    unfold col_length in Hc. by destruct (col_cells c).
  - rewrite Hcols. constructor.
Qed.

Lemma drop_duplicates_empty df : is_empty df = true → drop_duplicates df = df.
Proof. intros H. unfold drop_duplicates. by rewrite H. Qed.

Section empty_frames.
Context {P : Parsers}.


Lemma coerce_column_no_rows c :
  col_length c = 0%nat →
  coerce_column c = if is_object c then Numeric [] else c.
Proof.
  rewrite col_length_cells. destruct c as [| |xs|]; try done.
  intros ->%nil_length_inv. done.
Qed.

(** C9, as amended.  On an empty frame (no row or no column) [clean_data]
    returns an empty frame with the same column names and the same number
    of rows, labelled from 0; imputation and duplicate removal change
    nothing; coercion keeps every column that is not textual and, in a
    frame without rows, turns every textual column into a numeric one. *)
Theorem clean_data_on_empty_frame df :
  wf df → is_empty df = true →
  impute df = df ∧
  drop_duplicates (impute df) = impute df ∧
  is_empty (clean_data df) = true ∧
  index (clean_data df) = Z.of_nat <$> seq 0 (nrows df) ∧
  (columns (clean_data df)).*1 = (columns df).*1 ∧
  (∀ i n c, columns df !! i = Some (n, c) →
     index df = [] ∧
     columns (clean_data df) !! i =
       Some (n, if is_object c then Numeric [] else c)).
Proof.
  intros Hwf Hempty.
  assert (impute df = df) as Himp.
  { by apply impute_settled, empty_frame_settled. }
  assert (clean_data df = coerce (reset_index df))
    as Hclean.
  { unfold clean_data. by rewrite Himp, drop_duplicates_empty. }
  assert (NoDup (columns (reset_index df)).*1) as Hnd by apply Hwf.
  split_and!.
  - done.
  - rewrite Himp. by apply drop_duplicates_empty.
  - rewrite Hclean. apply is_empty_true. simpl.
    apply is_empty_true in Hempty as [Hidx|Hcols].
    + left. unfold nrows. by rewrite Hidx.
    + right. by rewrite Hcols.
  - by rewrite Hclean.
  - rewrite Hclean, coerce_columns by done. apply prod_map_names.
  - intros i n c Hi.
    apply is_empty_true in Hempty as [Hidx|Hcols];
      [|by rewrite Hcols in Hi].
    split; [done|].
    rewrite Hclean, (coerce_lookup _ i n c) by done.
    rewrite coerce_column_no_rows; [done|].
    destruct Hwf as [_ Hlen]. rewrite Forall_lookup in Hlen.
    specialize (Hlen _ _ Hi). simpl in Hlen. by rewrite Hlen, Hidx.
Qed.
End empty_frames.

(** ** The program on the heap computes [clean_data] and keeps to itself *)

Lemma bind_Some {A B} (m : M A) (f : A → M B) h a h1 :
  m h = Some (a, h1) → (m ≫= f) h = f a h1.
Proof. intros H. unfold mbind, M_bind. by rewrite H. Qed.

Lemma load_frame_Some h p idx lcols :
  h !! p = Some (OFrame idx lcols) → load_frame p h = Some ((idx, lcols), h).
Proof.
  intros H. unfold load_frame, load, mbind, M_bind. by rewrite H.
Qed.

Lemma load_series_Some h l c :
  h !! l = Some (OSeries c) → load_series l h = Some (c, h).
Proof.
  intros H. unfold load_series, load, mbind, M_bind. by rewrite H.
Qed.

Lemma load_series_inv h l c h' :
  load_series l h = Some (c, h') → h' = h ∧ h !! l = Some (OSeries c).
Proof.
  unfold load_series, load, mbind, M_bind, mret, M_ret, raise.
  destruct (h !! l) as [[|c']|]; simpl; intros H; by simplify_eq.
Qed.

Lemma load_columns_Some h lcols cols :
  Forall2 (holds h) lcols cols → load_columns lcols h = Some (cols, h).
Proof.
  induction 1 as [|[n l] [n' c] lcols cols [Hn Hl] _ IH]; simpl in *; [done|].
  erewrite bind_Some by (by apply load_series_Some).
  erewrite bind_Some by done. by subst.
Qed.

Lemma load_columns_inv h lcols cols h' :
  load_columns lcols h = Some (cols, h') →
  h' = h ∧ Forall2 (holds h) lcols cols.
Proof.
  revert cols h'. induction lcols as [|[n l] lcols IH]; intros cols h'; simpl.
  { intros [= <- <-]. by split. }
  unfold mbind, M_bind.
  destruct (load_series l h) as [[c h1]|] eqn:Hc; [|done].
  apply load_series_inv in Hc as [-> Hl].
  destruct (load_columns lcols h) as [[cols' h2]|] eqn:Hcols; [|done].
  destruct (IH _ _ eq_refl) as [-> Hall].
  intros [= <- <-]. split; [done|]. by constructor.
Qed.

Lemma frame_at_represents h p df :
  frame_at h p df ↔ ∃ lcols, represents h p df lcols.
Proof.
  unfold frame_at, represents, read_frame. split.
  - unfold mbind, M_bind, load_frame, load, mbind, M_bind.
    destruct (h !! p) as [[idx lcols|c]|]; simpl; [|done..].
    destruct (load_columns lcols h) as [[cols h1]|] eqn:Hcols; [|done].
    apply load_columns_inv in Hcols as [-> Hall].
    intros [= <-]. by exists lcols.
  - intros (lcols & Hp & Hall).
    erewrite bind_Some by (by apply load_frame_Some).
    cbv beta iota.
    erewrite bind_Some by (by apply load_columns_Some).
    by destruct df.
Qed.

Lemma holds_weaken h h' nl nc : h ⊆ h' → holds h nl nc → holds h' nl nc.
Proof. intros Hsub [Hn Hl]. split; [done|]. by eapply lookup_weaken. Qed.

(** What a heap holds, every larger heap holds: the value of a frame does
    not change as long as its objects are left alone. *)
Lemma frame_at_weaken h h' p df : h ⊆ h' → frame_at h p df → frame_at h' p df.
Proof.
  intros Hsub (lcols & Hp & Hall)%frame_at_represents.
  apply frame_at_represents. exists lcols. split.
  - by eapply lookup_weaken.
  - eapply Forall2_impl; [done|]. intros nl nc. by apply holds_weaken.
Qed.

Lemma owned_frame_at h0 h q df : owned h0 h q df → frame_at h q df.
Proof.
  intros (_ & _ & lcols & Hrep & _). apply frame_at_represents. by exists lcols.
Qed.

Lemma alloc_fresh h o :
  ∃ l, alloc o h = Some (l, <[l := o]> h) ∧ h !! l = None.
Proof.
  exists (fresh (dom h)). split; [done|].
  apply not_elem_of_dom, is_fresh.
Qed.

Lemma alloc_columns_spec cols h :
  ∃ lcols h', alloc_columns cols h = Some (lcols, h') ∧ h ⊆ h' ∧
              Forall2 (holds h') lcols cols ∧
              Forall (λ nl, h !! nl.2 = None) lcols.
Proof.
  revert h. induction cols as [|[n c] cols IH]; intros h; simpl.
  { exists [], h. by split_and!. }
  destruct (alloc_fresh h (OSeries c)) as (l & Hl & Hfresh).
  destruct (IH (<[l := OSeries c]> h)) as (lcols & h' & Hcols & Hsub & Hall & Hnew).
  assert (h ⊆ <[l := OSeries c]> h) as Hsub1 by (by apply insert_subseteq).
  exists ((n, l) :: lcols), h'. split_and!.
  - erewrite bind_Some by done. by erewrite bind_Some by done.
  - by etrans.
  - constructor; [|done]. split; [done|]. simpl.
    eapply lookup_weaken; [|done]. apply lookup_insert_eq.
  - constructor; [done|]. eapply Forall_impl; [done|].
    intros nl Hnl. simpl in *. by eapply lookup_weaken_None.
Qed.

Lemma new_frame_spec h0 h df :
  h0 ⊆ h →
  ∃ q h', new_frame df h = Some (q, h') ∧ h ⊆ h' ∧ owned h0 h' q df.
Proof.
  intros Hsub0.
  destruct (alloc_columns_spec (columns df) h)
    as (lcols & h1 & Hcols & Hsub1 & Hall & Hnew).
  destruct (alloc_fresh h1 (OFrame (index df) lcols)) as (q & Hq & Hfresh).
  assert (h1 ⊆ <[q := OFrame (index df) lcols]> h1) as Hsub2
    by (by apply insert_subseteq).
  exists q, (<[q := OFrame (index df) lcols]> h1). split_and!.
  - unfold new_frame. by erewrite bind_Some by done.
  - by etrans.
  - split_and!.
    + etrans; [done|]. by etrans.
    + eapply lookup_weaken_None; [done|]. by etrans.
    + exists lcols. split; [split|].
      * apply lookup_insert_eq.
      * eapply Forall2_impl; [done|]. intros nl nc. by apply holds_weaken.
      * eapply Forall_impl; [done|]. intros nl Hnl. simpl in *.
        by eapply lookup_weaken_None.
Qed.

(** The entries of a frame object follow its columns through [getitem] and
    [setitem]. *)
Lemma getitem_holds h lcols cols n c :
  Forall2 (holds h) lcols cols → getitem cols n = Some c →
  ∃ l, getitem lcols n = Some l ∧ h !! l = Some (OSeries c).
Proof.
  induction 1 as [|[m l] [m' c'] lcols cols [Hn Hl] _ IH]; simpl in *; [done|].
  subst m'. case_decide; [|done]. intros [= ->]. by exists l.
Qed.

Lemma setitem_holds h lcols cols n l c :
  Forall2 (holds h) lcols cols → h !! l = Some (OSeries c) →
  Forall2 (holds h) (setitem lcols n l) (setitem cols n c).
Proof.
  intros Hall Hl.
  induction Hall as [|[m l0] [m' c0] lcols cols [Hn Hl0] Hall IH]; simpl in *.
  { by repeat constructor. }
  subst m'. case_decide; constructor; done.
Qed.

Lemma setitem_Forall {V} (P : string * V → Prop) (lcols : list (string * V)) n l :
  Forall P lcols → P (n, l) → Forall P (setitem lcols n l).
Proof.
  intros Hall Hl.
  induction Hall as [|[m l0] lcols H0 Hall IH]; simpl.
  { by repeat constructor. }
  case_decide; subst; by constructor.
Qed.

Lemma getitem_is_Some cols n : n ∈ cols.*1 → is_Some (getitem cols n).
Proof.
  induction cols as [|[m c] cols IH]; csimpl.
  { by intros ?%elem_of_nil. }
  case_decide; [by eexists|]. intros [?|?]%elem_of_cons; [by subst|auto].
Qed.

Lemma setitem_names cols n c :
  n ∈ cols.*1 → (setitem cols n c).*1 = cols.*1.
Proof.
  induction cols as [|[m c0] cols IH]; csimpl.
  { by intros ?%elem_of_nil. }
  case_decide; [done|]. intros [?|?]%elem_of_cons; [by subst|].
  csimpl. by rewrite IH.
Qed.

Lemma assign_names body cols n : n ∈ cols.*1 → (assign body cols n).*1 = cols.*1.
Proof.
  intros Hn. unfold assign.
  destruct (getitem cols n); [|done]. destruct (body _); [|done].
  by apply setitem_names.
Qed.

Lemma assign_st_spec h0 h q df body n :
  owned h0 h q df → n ∈ (columns df).*1 →
  ∃ h', assign_st body q n h = Some ((), h') ∧
        owned h0 h' q (mkDataFrame (index df) (assign body (columns df) n)).
Proof.
  intros (Hsub & Hq0 & lcols & [Hq Hall] & Hnew) Hn.
  destruct (getitem_is_Some _ _ Hn) as [c Hc].
  destruct (getitem_holds _ _ _ _ _ Hall Hc) as (l & Hl & Hlc).
  unfold assign_st, getitem_st, assign.
  erewrite bind_Some.
  2:{ erewrite bind_Some by (by apply load_frame_Some).
      cbv beta iota. rewrite Hl. by apply load_series_Some. }
  rewrite Hc. destruct (body c) as [c'|].
  - destruct (alloc_fresh h (OSeries c')) as (l' & Hl' & Hfresh).
    set (h1 := <[l' := OSeries c']> h).
    set (h' := <[q := OFrame (index df) (setitem lcols n l')]> h1).
    assert (h ⊆ h1) as Hsub1 by (by apply insert_subseteq).
    assert (l' ≠ q) as Hne by (intros ->; congruence).
    exists h'. split.
    { unfold setitem_st.
      erewrite bind_Some by (by apply load_frame_Some).
      cbv beta iota. by erewrite bind_Some by done. }
    assert (∀ nl nc, holds h nl nc → holds h' nl nc) as Hkeep.
    { intros nl nc [Hnm Hnl]. split; [done|]. unfold h'.
      rewrite lookup_insert_ne by (intros ->; congruence).
      by eapply lookup_weaken. }
    split_and!.
    + unfold h'. apply insert_subseteq_r; [done|]. by etrans.
    + done.
    + exists (setitem lcols n l'). split; [split|]; simpl.
      * apply lookup_insert_eq.
      * apply setitem_holds.
        -- eapply Forall2_impl; [done|]. apply Hkeep.
        -- unfold h'. rewrite lookup_insert_ne by done. apply lookup_insert_eq.
      * apply setitem_Forall; [done|]. simpl.
        by eapply lookup_weaken_None.
  - exists h. split; [done|]. split_and!; [done..|].
    exists lcols. by split.
Qed.

Lemma for_each_st_spec h0 h q df body names :
  owned h0 h q df → Forall (λ n, n ∈ (columns df).*1) names →
  ∃ h', for_each_st names body q h = Some ((), h') ∧
        owned h0 h' q (mkDataFrame (index df) (for_each names body (columns df))).
Proof.
  revert h df. induction names as [|n names IH]; intros h df Hown Hnames; simpl.
  { exists h. split; [done|]. by destruct df. }
  apply Forall_cons in Hnames as [Hn Hnames].
  destruct (assign_st_spec h0 h q df body n Hown Hn) as (h1 & Hstep & Hown1).
  destruct (IH h1 _ Hown1) as (h' & Hloop & Hown').
  { simpl. by rewrite assign_names. }
  exists h'. split; [|done]. by erewrite bind_Some by done.
Qed.

Lemma filter_names_subseteq (P : string * column → Prop)
    `{!∀ nc, Decision (P nc)} cols :
  Forall (λ n, n ∈ cols.*1) (filter P cols).*1.
Proof.
  apply Forall_forall. intros n ([m c] & -> & [_ ?]%list_elem_of_filter)%list_elem_of_fmap.
  apply list_elem_of_fmap. by exists (m, c).
Qed.

Lemma for_each_names names body cols :
  Forall (λ n, n ∈ cols.*1) names → (for_each names body cols).*1 = cols.*1.
Proof.
  unfold for_each. revert cols.
  induction names as [|n names IH]; intros cols Hnames; simpl; [done|].
  apply Forall_cons in Hnames as [Hn Hnames].
  rewrite IH by (by rewrite assign_names). by apply assign_names.
Qed.

Section program_facts.
Context {P : Parsers}.

(** The program started on a frame with value [df] ends, and ends with a
    private frame that holds [clean_data df]. *)
Lemma clean_data_st_spec h p df :
  frame_at h p df →
  ∃ q h', clean_data_st p h = Some (q, h') ∧
          owned h h' q (clean_data df).
Proof.
  intros Hp. unfold clean_data_st.
  destruct (new_frame_spec h h df) as (q1 & h1 & Hcopy & Hsub1 & Hown1); [done|].
  erewrite bind_Some.
  2:{ unfold df_copy. by erewrite bind_Some by done. }
  erewrite bind_Some by (by eapply owned_frame_at).
  destruct (for_each_st_spec h h1 q1 df impute_numeric (numeric_cols df) Hown1)
    as (h2 & Hloop1 & Hown2); [apply filter_names_subseteq|].
  erewrite bind_Some by done.
  destruct (for_each_st_spec h h2 q1 _ impute_categorical
              (categorical_cols df) Hown2) as (h3 & Hloop2 & Hown3).
  { simpl. rewrite for_each_names by apply filter_names_subseteq.
    apply filter_names_subseteq. }
  erewrite bind_Some by done. simpl in Hown3.
  change (mkDataFrame (index df) _) with (impute df) in Hown3.
  destruct (new_frame_spec h h3 (drop_duplicates (impute df)))
    as (q2 & h4 & Hdd & Hsub4 & Hown4); [apply Hown3|].
  erewrite bind_Some.
  2:{ unfold drop_duplicates_st.
      by erewrite bind_Some by (by eapply owned_frame_at). }
  destruct (new_frame_spec h h4 (reset_index (drop_duplicates (impute df))))
    as (q3 & h5 & Hri & Hsub5 & Hown5); [apply Hown4|].
  erewrite bind_Some.
  2:{ unfold reset_index_st.
      by erewrite bind_Some by (by eapply owned_frame_at). }
  erewrite bind_Some by (by eapply owned_frame_at).
  destruct (for_each_st_spec h h5 q3 _ (coerce_body)
              (columns (reset_index (drop_duplicates (impute df)))).*1 Hown5)
    as (h6 & Hloop3 & Hown6).
  { apply Forall_forall. auto. }
  erewrite bind_Some by done.
  exists q3, h6. split; [done|]. done.
Qed.

(** C8. [clean_data] leaves every object of the caller's heap as it was,
    the input frame, its columns and their cells and dtypes included, and
    returns a frame object that did not exist before the call, whose
    buffers did not exist before the call either, and which holds the
    cleaned value. *)
Theorem clean_data_st_leaves_input_unmodified h p df :
  frame_at h p df →
  ∃ q h', clean_data_st p h = Some (q, h') ∧
          h ⊆ h' ∧
          frame_at h' p df ∧
          frame_at h' q (clean_data df) ∧
          h !! q = None ∧
          Forall (λ l, h !! l = None) (buffers h' q).
Proof.
  intros Hp.
  destruct (clean_data_st_spec h p df Hp) as (q & h' & Hrun & Hown).
  exists q, h'. split; [done|].
  pose proof (owned_frame_at _ _ _ _ Hown) as Hq.
  destruct Hown as (Hsub & Hq0 & lcols & [Hlq Hall] & Hnew).
  split_and!; [done|by eapply frame_at_weaken|done|done|].
  unfold buffers. rewrite Hlq. by apply Forall_fmap.
Qed.
End program_facts.

(** ** Further properties of the cleaning stages *)

Lemma length_select_le {A} mask (xs : list A) :
  (length (select mask xs) ≤ length xs)%nat.
Proof.
  revert xs. induction mask as [|b mask IH]; intros [|x xs];
    rewrite ?select_nil_l, ?select_nil_r; simpl; try lia.
  rewrite select_cons. specialize (IH xs). destruct b; simpl; lia.
Qed.

Lemma filter_is_numeric_false cols :
  filter (λ nc, is_numeric nc.2 = false) cols =
  filter (λ nc, ¬ is_numeric nc.2 = true) cols.
Proof.
  apply list_filter_iff. intros [n c]. simpl. by destruct (is_numeric c).
Qed.

(** The classifier splits the columns in two: every column name goes to
    [numeric_cols] or to [categorical_cols] according to its dtype, each list
    keeps the order of the frame, and with unique names no name is in
    both. *)
Theorem classification_partitions_columns df :
  numeric_cols df ++ categorical_cols df ≡ₚ (columns df).*1 ∧
  numeric_cols df `sublist_of` (columns df).*1 ∧
  categorical_cols df `sublist_of` (columns df).*1 ∧
  (∀ i n c, columns df !! i = Some (n, c) →
     if is_numeric c then n ∈ numeric_cols df else n ∈ categorical_cols df) ∧
  (NoDup (columns df).*1 →
   ∀ n, n ∈ numeric_cols df → n ∉ categorical_cols df).
Proof.
  unfold numeric_cols, categorical_cols. split_and!.
  - rewrite filter_is_numeric_false, <-fmap_app.
    by rewrite filter_app_complement.
  - apply fmap_sublist, sublist_filter.
  - apply fmap_sublist, sublist_filter.
  - intros i n c Hi%list_elem_of_lookup_2.
    destruct (is_numeric c) eqn:Hc; apply list_elem_of_fmap;
      exists (n, c); (split; [done|]); by apply list_elem_of_filter.
  - intros Hnd n ([n1 c1] & -> & [H1 Hin1]%list_elem_of_filter)%list_elem_of_fmap
                 ([n2 c2] & Heq & [H2 Hin2]%list_elem_of_filter)%list_elem_of_fmap.
    simpl in *. subst n2.
    rewrite (unique_name _ _ _ _ Hnd Hin1 Hin2) in H1. congruence.
Qed.

Lemma impute_names df : (columns (impute df)).*1 = (columns df).*1.
Proof.
  unfold impute, numeric_cols, categorical_cols. simpl.
  rewrite for_each_names.
  - apply for_each_names, filter_names_subseteq.
  - rewrite for_each_names by apply filter_names_subseteq.
    apply filter_names_subseteq.
Qed.

Lemma drop_duplicates_names df :
  (columns (drop_duplicates df)).*1 = (columns df).*1.
Proof.
  unfold drop_duplicates. destruct (is_empty df); [done|]. apply prod_map_names.
Qed.

Lemma drop_duplicates_nrows_le df : (nrows (drop_duplicates df) ≤ nrows df)%nat.
Proof.
  unfold drop_duplicates, nrows. destruct (is_empty df); [done|]. simpl.
  apply length_select_le.
Qed.

Section shape_facts.
Context {P : Parsers}.

Lemma coerce_names df : (columns (coerce df)).*1 = (columns df).*1.
Proof.
  unfold coerce. simpl. apply for_each_names, Forall_forall. auto.
Qed.


(** [clean_data] keeps the shape of a frame: unique names, and one cell per
    row label in every column; the labels of the result are 0, 1, 2, ...
    whatever the labels of the input. *)
Theorem clean_data_keeps_shape df :
  keeps_length → wf df →
  wf (clean_data df) ∧
  index (clean_data df) = Z.of_nat <$> seq 0 (nrows (clean_data df)) ∧
  Forall (λ nc, col_length nc.2 = nrows (clean_data df)) (columns (clean_data df)).
Proof.
  intros Hdt Hwf. pose proof (clean_data_wf df Hdt Hwf) as Hwf'.
  split_and!; [done|apply clean_data_index|apply Hwf'].
Qed.

(** [clean_data] never adds a row; on a frame with a column, the number of
    rows it returns is the number of distinct rows of the imputed frame. *)
Theorem clean_data_row_count df :
  wf df →
  (nrows (clean_data df) ≤ nrows df)%nat ∧
  (columns df ≠ [] →
   nrows (clean_data df) = length (unique (rows (impute df)))).
Proof.
  intros Hwf.
  assert (nrows (clean_data df) = nrows (drop_duplicates (impute df))) as ->.
  { unfold clean_data, coerce, reset_index, nrows. simpl.
    by rewrite length_fmap, length_seq. }
  split.
  - etrans; [apply drop_duplicates_nrows_le|done].
  - intros Hcols. apply drop_duplicates_nrows; [by apply impute_wf|].
    intros E. apply Hcols.
    apply (f_equal (fmap fst)) in E. rewrite impute_names in E.
    by apply fmap_nil_inv in E.
Qed.
End shape_facts.

Lemma impute_column_idemp c :
  impute_column (impute_column c) = impute_column c.
Proof.
  destruct (has_mean c) eqn:Hm.
  2:{ by rewrite !(impute_column_nan c). }
  destruct (col_notna_any c) eqn:Hc.
  - by apply impute_column_no_missing, impute_column_complete.
  - by rewrite !(impute_column_all_missing c).
Qed.

(** Imputation is idempotent: once the gaps are filled, a second pass finds
    nothing to fill and changes nothing. *)
Theorem impute_is_idempotent df :
  NoDup (columns df).*1 → impute (impute df) = impute df.
Proof.
  intros Hnd. apply DataFrame_ext; [done|].
  rewrite (impute_columns (impute df)) by (by rewrite impute_names).
  rewrite impute_columns by done. rewrite <-list_fmap_compose.
  apply list_fmap_ext. intros i [n c] _. unfold compose, prod_map. simpl.
  by rewrite impute_column_idemp.
Qed.

Lemma fill_with_mean_lookup_Some xs j a :
  xs !! j = Some (Some a) → fill_with_mean xs !! j = Some (Some a).
Proof.
  intros H. unfold fill_with_mean, mean_fill.
  destruct (isna_any xs); simpl; [by apply fillna_lookup_Some|done].
Qed.

Lemma fill_with_mode_lookup_Some {A} `{EqDecision A} (R : relation A)
    `{!RelDecision R} (xs : list (option A)) j a :
  xs !! j = Some (Some a) → fill_with_mode R xs !! j = Some (Some a).
Proof.
  intros H. unfold fill_with_mode, mode_fill.
  destruct (isna_any xs); [|done].
  destruct (mode R xs); simpl; [done|by apply fillna_lookup_Some].
Qed.

Lemma lookup_fmap_Some_Some {A B} (f : A → B) (xs : list (option A)) j v :
  (fmap (M:=option) f <$> xs) !! j = Some (Some v) →
  ∃ a, xs !! j = Some (Some a) ∧ v = f a.
Proof.
  rewrite list_lookup_fmap. destruct (xs !! j) as [[a|]|]; simpl; [|done..].
  intros [= <-]. by exists a.
Qed.

Lemma impute_column_keeps_cells c j v :
  col_cells c !! j = Some (Some v) →
  col_cells (impute_column c) !! j = Some (Some v).
Proof.
  rewrite impute_column_eq. destruct c as [xs|tz xs|xs|xs]; simpl; [| | |done].
  - intros (a & Ha & ->)%lookup_fmap_Some_Some.
    by rewrite list_lookup_fmap, (fill_with_mean_lookup_Some xs j a).
  - intros (a & Ha & ->)%lookup_fmap_Some_Some.
    by rewrite list_lookup_fmap, (fill_with_mode_lookup_Some _ xs j a).
  - intros (a & Ha & ->)%lookup_fmap_Some_Some.
    by rewrite list_lookup_fmap, (fill_with_mode_lookup_Some _ xs j a).
Qed.

Lemma impute_column_dtype c : dtype_of (impute_column c) = dtype_of c.
Proof. rewrite impute_column_eq. by destruct c. Qed.

(** C1, as amended. The imputation stage keeps names, order and row labels,
    and it keeps of every column the dtype, the number of cells and every
    cell that held a value.  Every column that had a non-missing cell has
    no missing cell afterwards, except a numeric column whose mean is
    [NaN], which is unchanged; a column whose cells were all missing is
    unchanged. *)
Theorem impute_fills_every_column df :
  NoDup (columns df).*1 →
  index (impute df) = index df ∧
  length (columns (impute df)) = length (columns df) ∧
  ∀ i n c, columns df !! i = Some (n, c) →
    ∃ c', columns (impute df) !! i = Some (n, c') ∧
          dtype_of c' = dtype_of c ∧
          col_length c' = col_length c ∧
          (∀ j v, col_cells c !! j = Some (Some v) →
                  col_cells c' !! j = Some (Some v)) ∧
          (col_notna_any c = true → has_mean c = true →
           col_isna_any c' = false) ∧
          (has_mean c = false → c' = c) ∧
          (col_notna_any c = false → c' = c).
Proof.
  intros Hnd. split_and!; [done| |].
  - rewrite impute_columns by done. apply length_fmap.
  - intros i n c Hi. exists (impute_column c). split_and!.
    + by apply impute_lookup.
    + apply impute_column_dtype.
    + apply impute_column_length.
    + intros j v. apply impute_column_keeps_cells.
    + apply impute_column_complete.
    + apply impute_column_nan.
    + apply impute_column_all_missing.
Qed.

(** Imputation only fills gaps: in every column the dtype and the number of
    cells stay, and every cell that held a value still holds that value. *)
Theorem impute_keeps_present_cells df i n c :
  NoDup (columns df).*1 →
  columns df !! i = Some (n, c) →
  ∃ c', columns (impute df) !! i = Some (n, c') ∧
        dtype_of c' = dtype_of c ∧
        col_length c' = col_length c ∧
        ∀ j v, col_cells c !! j = Some (Some v) →
               col_cells c' !! j = Some (Some v).
Proof.
  intros Hnd Hi. exists (impute_column c). split_and!.
  - by apply impute_lookup.
  - apply impute_column_dtype.
  - apply impute_column_length.
  - intros j v. apply impute_column_keeps_cells.
Qed.

(** Dropping duplicates and resetting the index is idempotent. *)
Theorem drop_duplicates_is_idempotent df :
  wf df →
  reset_index (drop_duplicates (reset_index (drop_duplicates df))) =
  reset_index (drop_duplicates df).
Proof.
  intros Hwf.
  set (u := reset_index (drop_duplicates df)).
  assert (wf u) as Hu by (by apply reset_index_wf, drop_duplicates_wf).
  assert (index u = Z.of_nat <$> seq 0 (nrows u)) as Hidx.
  { unfold u, reset_index, nrows. simpl. by rewrite length_fmap, length_seq. }
  destruct (decide (columns df = [])) as [Hcols|Hcols].
  - assert (is_empty u = true) as He.
    { apply is_empty_true. right. unfold u. simpl.
      apply fmap_nil_inv with (f := fst).
      by rewrite drop_duplicates_names, Hcols. }
    rewrite drop_duplicates_empty by done. by apply reset_index_id.
  - rewrite (drop_duplicates_NoDup u); [by apply reset_index_id|done|].
    unfold u. rewrite reset_index_rows, drop_duplicates_unique by done.
    apply NoDup_unique.
Qed.

Section coercion_more.
Context {P : Parsers}.

(** Coercion is idempotent: a column is examined once, and a column that
    came out numeric, temporal or still textual comes out the same from a
    second pass. *)
Theorem coercion_is_idempotent df :
  NoDup (columns df).*1 →
  coerce (coerce df) = coerce df ∧
  ∀ c, coerce_column (coerce_column c) = coerce_column c.
Proof.
  intros Hnd. split; [by apply coerce_idemp|apply coerce_column_idemp].
Qed.



Lemma coerce_column_dtype c :
  is_object c = false → dtype_of (coerce_column c) = dtype_of c.
Proof. intros H. by rewrite coerce_column_not_object. Qed.

Lemma coerce_column_tz_aware c :
  is_tz_aware (coerce_column c) = true → is_tz_aware c = true.
Proof.
  destruct (is_object c) eqn:Hc.
  2:{ by rewrite coerce_column_not_object. }
  destruct c as [| |xs|]; try done.
  destruct (to_numeric xs) as [ys|] eqn:Hn.
  { by rewrite (coerce_column_numeric xs ys). }
  rewrite coerce_column_not_numeric by done.
  destruct (negb _) eqn:Hd; [|done].
  intros Htz. rewrite Htz in Hd. done.
Qed.

Lemma col_select_dtype mask c : dtype_of (col_select mask c) = dtype_of c.
Proof. by destruct c. Qed.

Lemma drop_duplicates_lookup df i n c :
  columns df !! i = Some (n, c) →
  ∃ c', columns (drop_duplicates df) !! i = Some (n, c') ∧
        dtype_of c' = dtype_of c.
Proof.
  intros Hi. unfold drop_duplicates. destruct (is_empty df).
  - by exists c.
  - eexists. simpl. rewrite list_lookup_fmap, Hi. simpl.
    split; [done|]. apply col_select_dtype.
Qed.

(** Through the whole of [clean_data] a column keeps its place and name; a
    column that is not of dtype object keeps its dtype; and the result has
    no timezone-aware column that was not timezone-aware in the input. *)
Theorem clean_data_keeps_dtypes df i n c :
  NoDup (columns df).*1 →
  columns df !! i = Some (n, c) →
  ∃ c', columns (clean_data df) !! i = Some (n, c') ∧
        (is_object c = false → dtype_of c' = dtype_of c) ∧
        (is_tz_aware c' = true → is_tz_aware c = true).
Proof.
  intros Hnd Hi.
  pose proof (impute_lookup df i n c Hnd Hi) as H1.
  destruct (drop_duplicates_lookup _ _ _ _ H1) as (c2 & H2 & Hd2).
  rewrite impute_column_dtype in Hd2.
  assert (NoDup (columns (reset_index (drop_duplicates (impute df)))).*1) as Hnd'.
  { change (columns (reset_index ?x)) with (columns x).
    by rewrite drop_duplicates_names, impute_names. }
  exists (coerce_column c2). split_and!.
  - unfold clean_data. by apply coerce_lookup.
  - intros Hobj. rewrite coerce_column_dtype; [done|].
    destruct c, c2; simplify_eq/=; done.
  - intros Htz%coerce_column_tz_aware.
    destruct c, c2; simplify_eq/=; done.
Qed.
End coercion_more.

(** ** Loading a file *)

Lemma endswith_spec s suffix :
  endswith s suffix = true ↔ ∃ stem, s = stem +:+ suffix.
Proof.
  induction s as [|a s IH]; simpl.
  - case_decide as E; split; try done.
    + intros _. by exists EmptyString.
    + intros [stem Hs]. destruct stem; simpl in Hs; [done|discriminate Hs].
  - case_decide as E.
    + split; [|done]. intros _. by exists EmptyString.
    + rewrite IH. split.
      * intros [stem ->]. by exists (String a stem).
      * intros [[|b stem] Hs]; simpl in Hs; [done|].
        injection Hs as -> ->. by exists stem.
Qed.

Section loading.
Context {io : Readers}.

Lemma load_dataset_log f :
  (load_dataset (Some f)).1 ≠ NoFrame → (load_dataset (Some f)).2 = [].
Proof.
  unfold load_dataset.
  destruct (endswith _ ".csv");
    [destruct (read_csv f)
    |destruct (endswith _ ".json"); [destruct (read_json f)|]];
    simpl; by intros ?.
Qed.

Lemma load_dataset_error f :
  (load_dataset (Some f)).1 = NoFrame →
  ∃ msg, (load_dataset (Some f)).2 = [st_error msg].
Proof.
  unfold load_dataset.
  destruct (endswith _ ".csv");
    [destruct (read_csv f)
    |destruct (endswith _ ".json"); [destruct (read_json f)|]];
    simpl; intros ?; by eauto.
Qed.

(** [load_dataset] hands back a frame only for a name that ends, whatever
    the case of its letters, in .csv or .json, and then the frame the
    matching reader gave (.csv comes first), of the model or of another
    kind; it writes nothing in that case, and exactly one error message in
    every other case of a file given: no exception of a reader escapes.
    Without a file it returns nothing and writes nothing. *)
Theorem load_dataset_outcome f :
  load_dataset None = (NoFrame, []) ∧
  (∀ df, (load_dataset (Some f)).1 = AFrame df ↔
     ((∃ stem, lower (file_name f) = stem +:+ ".csv") ∧
      read_csv f = ReadFrame df) ∨
     (¬ (∃ stem, lower (file_name f) = stem +:+ ".csv") ∧
      (∃ stem, lower (file_name f) = stem +:+ ".json") ∧
      read_json f = ReadFrame df)) ∧
  ((load_dataset (Some f)).1 = OtherFrame ↔
     ((∃ stem, lower (file_name f) = stem +:+ ".csv") ∧
      read_csv f = ReadOther) ∨
     (¬ (∃ stem, lower (file_name f) = stem +:+ ".csv") ∧
      (∃ stem, lower (file_name f) = stem +:+ ".json") ∧
      read_json f = ReadOther)) ∧
  ((load_dataset (Some f)).1 ≠ NoFrame → (load_dataset (Some f)).2 = []) ∧
  ((load_dataset (Some f)).1 = NoFrame →
   ∃ msg, (load_dataset (Some f)).2 = [st_error msg]) ∧
  (¬ (∃ stem, lower (file_name f) = stem +:+ ".csv") →
   ¬ (∃ stem, lower (file_name f) = stem +:+ ".json") →
   load_dataset (Some f) =
     (NoFrame,
      [st_error "Unsupported file type. Please upload a CSV or JSON file."])).
Proof.
  pose proof (endswith_spec (lower (file_name f)) ".csv") as Hc.
  pose proof (endswith_spec (lower (file_name f)) ".json") as Hj.
  unfold load_dataset.
  set (csv := ∃ stem, lower (file_name f) = stem +:+ ".csv") in *.
  set (json := ∃ stem, lower (file_name f) = stem +:+ ".json") in *.
  destruct (endswith (lower (file_name f)) ".csv");
    [|destruct (endswith (lower (file_name f)) ".json")].
  - assert csv as HC by by apply Hc.
    clear Hc Hj.
    destruct (read_csv f) as [d| |e]; simpl; split_and!; try done;
      try (intros df; split); try split; try (intros _; by eexists);
      intuition (simplify_eq; eauto).
  - assert (¬ csv) as HC by (by intros ?%Hc).
    assert json as HJ by by apply Hj.
    clear Hc Hj.
    destruct (read_json f) as [d| |e]; simpl; split_and!; try done;
      try (intros df; split); try split; try (intros _; by eexists);
      intuition (simplify_eq; eauto).
  - assert (¬ csv) as HC by (by intros ?%Hc).
    assert (¬ json) as HJ by (by intros ?%Hj).
    clear Hc Hj.
    simpl; split_and!; try done;
      try (intros df; split); try split; try (intros _; by eexists);
      intuition (simplify_eq; eauto).
Qed.
End loading.

(** ** The report of missing values *)

Lemma isna_sum_le {A} (xs : list (option A)) : (isna_sum xs ≤ length xs)%nat.
Proof. apply length_filter. Qed.

Lemma isna_sum_zero {A} (xs : list (option A)) :
  isna_sum xs = 0%nat ↔ isna_any xs = false.
Proof.
  unfold isna_sum. rewrite isna_any_false.
  induction xs as [|[a|] xs IH].
  - rewrite elem_of_nil. tauto.
  - rewrite filter_cons_False by done. rewrite IH, not_elem_of_cons.
    split; [done|tauto].
  - rewrite filter_cons_True by done. rewrite not_elem_of_cons.
    split; [done|]. intros [? _]. done.
Qed.

Lemma isna_sum_all {A} (xs : list (option A)) :
  isna_sum xs = length xs ↔ notna_any xs = false.
Proof.
  unfold isna_sum. rewrite notna_any_false.
  induction xs as [|[a|] xs IH].
  - split; [constructor|done].
  - rewrite filter_cons_False by done. split.
    + intros E. pose proof (length_filter (λ x, isna x = true) xs).
      cbn [length] in E. lia.
    + intros H. by inversion H.
  - rewrite filter_cons_True by done. cbn [length]. rewrite Forall_cons.
    split; [intros [= E]; by rewrite <-IH|intros [_ H]; f_equal; by apply IH].
Qed.

Lemma impute_column_changes c :
  impute_column c ≠ c ↔
  (0 < isna_sum (col_cells c) < col_length c)%nat ∧ has_mean c = true.
Proof.
  pose proof (isna_sum_le (col_cells c)) as Hle.
  pose proof (isna_sum_zero (col_cells c)) as H0.
  pose proof (isna_sum_all (col_cells c)) as Hall.
  fold (col_length c) in Hle, Hall.
  fold (col_isna_any c) in H0. fold (col_notna_any c) in Hall.
  split.
  - intros Hne. split_and!.
    + destruct (col_isna_any c) eqn:E.
      * destruct (isna_sum (col_cells c)); [|lia].
        by destruct H0 as [H0 _]; specialize (H0 eq_refl).
      * by destruct Hne; apply impute_column_no_missing.
    + destruct (col_notna_any c) eqn:E.
      * destruct (decide (isna_sum (col_cells c) = col_length c)) as [E'|]; [|lia].
        by apply Hall in E'.
      * by destruct Hne; apply impute_column_all_missing.
    + destruct (has_mean c) eqn:Hm; [done|].
      by destruct Hne; apply impute_column_nan.
  - intros [[Hpos Hlt] Hm] Heq.
    assert (col_notna_any c = true) as Hv.
    { destruct (col_notna_any c); [done|].
      destruct Hall as [_ Hall]. specialize (Hall eq_refl). lia. }
    apply impute_column_complete in Hv; [|done]. rewrite Heq in Hv.
    apply H0 in Hv. lia.
Qed.

Lemma missing_values_lookup df i n c :
  columns df !! i = Some (n, c) →
  missing_values df !! i = Some (n, isna_sum (col_cells c)).
Proof.
  intros Hi. unfold missing_values. by rewrite list_lookup_fmap, Hi.
Qed.

(** The report of [show_missing_values] tells what imputation will do.  A
    column is changed by the imputation loops exactly when its count of
    missing cells is neither zero nor the number of its cells and, for a
    numeric column, its mean is not [NaN].  The report on the imputed frame
    shows zero for such a column, and the count it showed before for every
    other column. *)
Theorem missing_report_tells_what_imputation_changes df i n c :
  NoDup (columns df).*1 →
  columns df !! i = Some (n, c) →
  ∃ k, show_missing_values df !! 1%nat =
         Some (st_dataframe (Counts "Missing Values" (missing_values df))) ∧
       missing_values df !! i = Some (n, k) ∧
       (k ≤ col_length c)%nat ∧
       (columns (impute df) !! i = Some (n, c) ↔
        k = 0%nat ∨ k = col_length c ∨ has_mean c = false) ∧
       missing_values (impute df) !! i =
         Some (n, if decide (k = col_length c ∨ has_mean c = false)
                  then k else 0%nat).
Proof.
  intros Hnd Hi. exists (isna_sum (col_cells c)).
  pose proof (impute_lookup df i n c Hnd Hi) as Hi'.
  pose proof (impute_column_changes c) as Hch.
  pose proof (isna_sum_le (col_cells c)) as Hle. fold (col_length c) in Hle.
  split_and!; [done|by apply missing_values_lookup|done| |].
  - rewrite Hi'. split.
    + intros [= E].
      destruct (decide (isna_sum (col_cells c) = 0%nat)); [by left|].
      destruct (decide (isna_sum (col_cells c) = col_length c));
        [by right; left|].
      destruct (has_mean c) eqn:Hm; [|by right; right].
      assert (impute_column c ≠ c) as Hne by (apply Hch; split; [lia|done]).
      done.
    + intros Hk. do 2 f_equal.
      destruct (decide (impute_column c = c)) as [|Hne]; [done|].
      apply Hch in Hne as [? Hm]. rewrite Hm in Hk.
      destruct Hk as [?|[?|?]]; [lia|lia|done].
  - rewrite (missing_values_lookup _ _ _ _ Hi'). do 2 f_equal.
    case_decide as E.
    + destruct E as [E|E].
      * apply isna_sum_all in E. fold (col_notna_any c) in E.
        by rewrite impute_column_all_missing.
      * by rewrite impute_column_nan.
    + apply isna_sum_zero. apply (impute_column_complete c).
      * destruct (col_notna_any c) eqn:Hv; [done|].
        apply isna_sum_all in Hv. destruct E. by left.
      * destruct (has_mean c); [done|]. destruct E. by right.
Qed.

(** ** Value counts and the plots *)

Lemma elem_of_dropna {A} (xs : list (option A)) a : a ∈ dropna xs ↔ Some a ∈ xs.
Proof.
  unfold dropna. rewrite list_elem_of_omap. split.
  - intros ([b|] & Hb & Heq); simplify_eq/=. done.
  - intros H. by exists (Some a).
Qed.

Lemma getitem_elem_of {V} (cols : list (string * V)) n (x : V) :
  getitem cols n = Some x → (n, x) ∈ cols.
Proof.
  induction cols as [|[m x0] cols IH]; simpl; [done|].
  case_decide as E.
  - intros [= ->]. subst. left.
  - intros H. right. by apply IH.
Qed.

Lemma selectbox_elem_of options pick :
  options ≠ [] → selectbox options pick ∈ options.
Proof.
  intros Hne. unfold selectbox.
  destruct (options !! pick) as [o|] eqn:E; simpl.
  - by eapply list_elem_of_lookup_2.
  - destruct options; [done|]. left.
Qed.

Lemma length_dropna {A} (xs : list (option A)) :
  (length (dropna xs) + isna_sum xs)%nat = length xs.
Proof.
  unfold dropna, isna_sum. induction xs as [|[a|] xs IH]; [done|..].
  - rewrite filter_cons_False by done. csimpl. cbn [length]. lia.
  - rewrite filter_cons_True by done. csimpl. cbn [length]. lia.
Qed.

Section value_counts_facts.
Context {A : Type} {eq_dec : EqDecision A}.
Implicit Types (vals : list A) (xs : list (option A)).

Lemma occurrences_cons v a vals :
  occurrences v (a :: vals) =
  ((if decide (v = a) then 1 else 0) + occurrences v vals)%nat.
Proof.
  unfold occurrences. case_decide as E.
  - by rewrite filter_cons_True by done.
  - by rewrite filter_cons_False by done.
Qed.

Lemma occurrences_pos v vals : v ∈ vals → (0 < occurrences v vals)%nat.
Proof.
  intros Hv. unfold occurrences.
  assert (v ∈ filter (v =.) vals) as H by (by apply list_elem_of_filter).
  destruct (filter (v =.) vals); [by apply elem_of_nil in H|simpl; lia].
Qed.

Lemma sum_indicator a (U : list A) :
  NoDup U → a ∈ U →
  sum_list_with (λ v, if decide (v = a) then 1 else 0)%nat U = 1%nat.
Proof.
  induction 1 as [|u U Hu Hnd IH]; [by intros ?%elem_of_nil|].
  intros Ha. cbn [sum_list_with]. case_decide as E.
  - subst u. assert (sum_list_with (λ v, if decide (v = a) then 1 else 0)%nat U
                     = 0%nat) as ->; [|done].
    clear IH Ha Hnd. induction U as [|w U IH]; [done|].
    apply not_elem_of_cons in Hu as [Hw Hu]. cbn [sum_list_with].
    rewrite decide_False by done. by rewrite IH.
  - apply elem_of_cons in Ha as [->|Ha]; [done|]. by rewrite IH.
Qed.

Lemma sum_occurrences (U : list A) vals :
  NoDup U → (∀ a, a ∈ vals → a ∈ U) →
  sum_list_with (λ v, occurrences v vals) U = length vals.
Proof.
  intros Hnd. induction vals as [|a vals IH]; intros Hin.
  - unfold occurrences. clear. induction U as [|u U IH]; [done|].
    cbn [sum_list_with]. by rewrite IH.
  - assert (sum_list_with (λ v, occurrences v (a :: vals)) U =
            (sum_list_with (λ v, if decide (v = a) then 1 else 0) U +
             sum_list_with (λ v, occurrences v vals) U)%nat) as ->.
    { clear. induction U as [|u U IH]; [done|].
      cbn [sum_list_with]. rewrite IH, occurrences_cons. lia. }
    rewrite sum_indicator, IH; [done| |done|].
    + intros b Hb. apply Hin. by right.
    + apply Hin. left.
Qed.

Lemma insert_by_count_Permutation (x : A * nat) l :
  insert_by_count x l ≡ₚ x :: l.
Proof.
  induction l as [|y l IH]; simpl; [done|].
  case_decide; [done|]. rewrite IH. apply Permutation_swap.
Qed.

Lemma insert_by_count_sorted (x : A * nat) l :
  StronglySorted more_frequent l →
  StronglySorted more_frequent (insert_by_count x l).
Proof.
  induction 1 as [|y l Hs IH Hy]; simpl; [by repeat constructor|].
  case_decide as Hlt.
  - constructor; [by constructor|]. constructor; [unfold more_frequent; lia|].
    eapply Forall_impl; [done|]. unfold more_frequent. intros z ?. lia.
  - constructor; [done|]. rewrite insert_by_count_Permutation.
    constructor; [unfold more_frequent; lia|done].
Qed.

Lemma sort_by_count_spec (l : list (A * nat)) :
  sort_by_count l ≡ₚ l ∧ StronglySorted more_frequent (sort_by_count l).
Proof.
  unfold sort_by_count.
  assert (∀ acc, StronglySorted more_frequent acc →
    foldl (λ acc x, insert_by_count x acc) acc l ≡ₚ acc ++ l ∧
    StronglySorted more_frequent
      (foldl (λ acc x, insert_by_count x acc) acc l)) as H.
  { induction l as [|x l IH]; intros acc Hacc; simpl.
    - by rewrite app_nil_r.
    - destruct (IH (insert_by_count x acc)) as [Hp Hs];
        [by apply insert_by_count_sorted|].
      split; [|done]. rewrite Hp, insert_by_count_Permutation.
      by rewrite <-Permutation_middle. }
  apply (H []). constructor.
Qed.

Lemma value_counts_Permutation xs :
  value_counts xs ≡ₚ
  (λ a, (a, occurrences a (dropna xs))) <$> unique (dropna xs).
Proof. apply sort_by_count_spec. Qed.

Lemma value_counts_sorted xs : StronglySorted more_frequent (value_counts xs).
Proof. apply sort_by_count_spec. Qed.

Lemma value_counts_values xs : (value_counts xs).*1 ≡ₚ unique (dropna xs).
Proof.
  rewrite value_counts_Permutation, <-list_fmap_compose.
  by rewrite <-(list_fmap_id (unique (dropna xs))) at 2.
Qed.

Lemma elem_of_value_counts xs v k :
  (v, k) ∈ value_counts xs ↔ Some v ∈ xs ∧ k = occurrences v (dropna xs).
Proof.
  rewrite value_counts_Permutation, list_elem_of_fmap.
  setoid_rewrite elem_of_unique. setoid_rewrite elem_of_dropna. split.
  - by intros (a & [= -> ->] & Ha).
  - intros [Hv ->]. by exists v.
Qed.

Lemma length_value_counts xs : length (value_counts xs) = nunique xs.
Proof.
  unfold nunique. by rewrite value_counts_Permutation, length_fmap.
Qed.

Lemma sum_value_counts xs :
  sum_list (value_counts xs).*2 = length (dropna xs).
Proof.
  rewrite value_counts_Permutation, <-list_fmap_compose.
  rewrite <-(sum_occurrences (unique (dropna xs)) (dropna xs)).
  - generalize (unique (dropna xs)). intros U.
    induction U as [|u U IH]; [done|]. csimpl. cbn [sum_list_with].
    by rewrite IH.
  - apply NoDup_unique.
  - intros a. by rewrite elem_of_unique.
Qed.

Lemma sum_list_take (n : nat) (l : list nat) :
  (sum_list (take n l) ≤ sum_list l)%nat.
Proof.
  rewrite <-(take_drop n l) at 2. rewrite sum_list_with_app. lia.
Qed.

(** The first [n] entries of the value counts. *)
Lemma value_counts_top (top : nat) xs bars :
  bars = take top (value_counts xs) →
  length bars = (top `min` nunique xs)%nat ∧
  NoDup bars.*1 ∧
  StronglySorted more_frequent bars ∧
  (∀ v k, (v, k) ∈ bars →
     Some v ∈ xs ∧ k = occurrences v (dropna xs) ∧ (0 < k)%nat) ∧
  (∀ v, Some v ∈ xs → v ∉ bars.*1 →
     length bars = top ∧
     ∀ w k, (w, k) ∈ bars → (occurrences v (dropna xs) ≤ k)%nat) ∧
  (sum_list bars.*2 + isna_sum xs ≤ length xs)%nat ∧
  ((nunique xs ≤ top)%nat → (sum_list bars.*2 + isna_sum xs)%nat = length xs).
Proof.
  intros ->.
  pose proof (value_counts_sorted xs) as Hs.
  pose proof (length_value_counts xs) as Hlen.
  pose proof (sum_value_counts xs) as Hsum.
  pose proof (length_dropna xs) as Hdrop.
  assert (NoDup (value_counts xs).*1) as Hnd.
  { rewrite value_counts_values. apply NoDup_unique. }
  rewrite <-(take_drop top (value_counts xs)) in Hs, Hnd.
  split_and!.
  - rewrite length_take. lia.
  - rewrite fmap_app in Hnd. by apply NoDup_app in Hnd as (? & _ & _).
  - by apply StronglySorted_app_1_l in Hs.
  - intros v k Hv%(subseteq_take top). apply elem_of_value_counts in Hv as [Hv ->].
    split_and!; [done..|]. apply occurrences_pos. by apply elem_of_dropna.
  - intros v Hv Hnot.
    assert ((v, occurrences v (dropna xs)) ∈ value_counts xs) as Hin
      by (by apply elem_of_value_counts).
    rewrite <-(take_drop top (value_counts xs)) in Hin.
    apply elem_of_app in Hin as [Hin|Hin].
    { destruct Hnot. apply list_elem_of_fmap. by eexists (_, _). }
    split.
    + rewrite length_take. apply Nat.min_l.
      destruct (decide (top ≤ length (value_counts xs))%nat); [done|].
      rewrite drop_ge in Hin by lia. by apply elem_of_nil in Hin.
    + intros w k Hw.
      by apply (StronglySorted_app_1_elem_of _ _ _ _ _ Hs Hw Hin).
  - pose proof (sum_list_take top (value_counts xs).*2) as Hle.
    rewrite <-fmap_take in Hle. lia.
  - intros Hn. rewrite take_ge by lia. lia.
Qed.
End value_counts_facts.

Lemma named_column df col (b : bool) :
  NoDup (columns df).*1 →
  col ∈ (filter (λ nc, is_numeric nc.2 = b) (columns df)).*1 →
  ∃ c, (col, c) ∈ columns df ∧ is_numeric c = b ∧ series df col = col_cells c.
Proof.
  intros Hnd Hin. apply list_elem_of_fmap in Hin as ([m c] & -> & Hin).
  apply list_elem_of_filter in Hin as [Hb Hin]. simpl in *.
  exists c. split_and!; [done..|].
  unfold series.
  destruct (getitem_is_Some (columns df) m) as [c' Hc'].
  { apply list_elem_of_fmap. by exists (m, c). }
  rewrite Hc'. simpl. apply getitem_elem_of in Hc'.
  by rewrite (unique_name _ _ _ _ Hnd Hin Hc').
Qed.

Lemma dropna_fmap {A B} (f : A → B) (xs : list (option A)) :
  dropna (fmap (M:=option) f <$> xs) = f <$> dropna xs.
Proof.
  unfold dropna. induction xs as [|[a|] xs IH]; csimpl; [done|by f_equal|done].
Qed.

Lemma isna_sum_fmap {A B} (f : A → B) (xs : list (option A)) :
  isna_sum (fmap (M:=option) f <$> xs) = isna_sum xs.
Proof.
  unfold isna_sum. induction xs as [|[a|] xs IH]; [done|..].
  - rewrite fmap_cons, !filter_cons_False by done. done.
  - rewrite fmap_cons, !filter_cons_True by done. cbn [length]. by rewrite IH.
Qed.


(** The histogram is drawn from a numeric column of the frame, in twenty
    bins, and from exactly its non-missing cells. *)
Theorem histogram_shows_present_numbers hist_pick bar_pick df col data bins :
  NoDup (columns df).*1 →
  st_pyplot (Hist col data bins)
    ∈ (show_visualizations hist_pick bar_pick df).1 →
  bins = 20%nat ∧
  ∃ xs, (col, Numeric xs) ∈ columns df ∧
        data = VNum <$> dropna xs ∧
        (length data + isna_sum xs)%nat = length xs.
Proof.
  intros Hnd Hin. unfold show_visualizations in Hin.
  case_bool_decide; [|by page_cases Hin].
  case_bool_decide; [destruct (hist_ending _)|]; simpl in Hin;
    try case_bool_decide; simpl in Hin; page_cases Hin; simplify_eq.
  all: split; [done|].
  all: destruct (named_column df (selectbox (numeric_cols df) hist_pick)
                   true Hnd) as (c & Hc & Hnum & Hs);
    [by apply selectbox_elem_of|].
  all: destruct c as [xs| | |]; try done; exists xs; rewrite Hs; simpl.
  all: rewrite dropna_fmap; split_and!; [done..|].
  all: rewrite length_fmap; apply length_dropna.
Qed.

(** The bar chart is drawn from a column of the frame that is not numeric.
    It has a bar for each distinct value, twenty at most; a bar's height is
    the number of cells that hold its value; heights do not increase from
    left to right; a value left out occurs no more often than any value
    shown, and only when twenty bars are shown; and the heights add up to at
    most the number of non-missing cells, to exactly that number when no
    value is left out. *)
Theorem bar_chart_shows_most_frequent_values hist_pick bar_pick df col bars :
  NoDup (columns df).*1 →
  st_pyplot (Bar col bars) ∈ (show_visualizations hist_pick bar_pick df).1 →
  ∃ c, (col, c) ∈ columns df ∧ is_numeric c = false ∧
    length bars = (20 `min` nunique (col_cells c))%nat ∧
    NoDup bars.*1 ∧
    StronglySorted more_frequent bars ∧
    (∀ v k, (v, k) ∈ bars →
       Some v ∈ col_cells c ∧
       k = occurrences v (dropna (col_cells c)) ∧ (0 < k)%nat) ∧
    (∀ v, Some v ∈ col_cells c → v ∉ bars.*1 →
       length bars = 20%nat ∧
       ∀ w k, (w, k) ∈ bars →
         (occurrences v (dropna (col_cells c)) ≤ k)%nat) ∧
    (sum_list bars.*2 + isna_sum (col_cells c) ≤ col_length c)%nat ∧
    ((nunique (col_cells c) ≤ 20)%nat →
     (sum_list bars.*2 + isna_sum (col_cells c))%nat = col_length c).
Proof.
  intros Hnd Hin. unfold show_visualizations in Hin.
  case_bool_decide; [|by page_cases Hin].
  case_bool_decide; [destruct (hist_ending _)|]; simpl in Hin;
    try case_bool_decide; simpl in Hin; page_cases Hin; simplify_eq.
  all: destruct (named_column df (selectbox (categorical_cols df) bar_pick)
                   false Hnd) as (c & Hc & Hnum & Hs);
    [by apply selectbox_elem_of|].
  all: exists c; split; [done|]; split; [done|].
  all: apply (value_counts_top 20 (col_cells c)); by rewrite Hs.
Qed.

Lemma nunique_le {A} `{EqDecision A} (xs : list (option A)) :
  (nunique xs + isna_sum xs ≤ length xs)%nat.
Proof.
  pose proof (length_dropna xs).
  pose proof (sublist_length _ _ (unique_sublist (dropna xs))).
  unfold nunique. lia.
Qed.

Lemma nunique_zero {A} `{EqDecision A} (xs : list (option A)) :
  nunique xs = 0%nat ↔ isna_sum xs = length xs.
Proof.
  pose proof (length_dropna xs). unfold nunique.
  rewrite length_zero_iff_nil, unique_nil, <-length_zero_iff_nil. lia.
Qed.

(** The table of unique values, when [show_data_analysis] shows one, has a
    line for each column that is not numeric, in the order of the frame,
    and at least one line; the number in a line counts values, not cells:
    with the missing cells of the column, as [show_missing_values] counts
    them, it does not exceed the number of cells, and it is zero exactly
    for a column with nothing but missing cells. *)
Theorem unique_counts_of_categorical_columns df page entries :
  NoDup (columns df).*1 →
  show_data_analysis df = (page, Done) →
  st_dataframe (Counts "Unique Values" entries) ∈ page →
  entries.*1 = categorical_cols df ∧ entries ≠ [] ∧
  ∀ n k, (n, k) ∈ entries →
    ∃ c m, (n, c) ∈ columns df ∧ is_numeric c = false ∧
           (n, m) ∈ missing_values df ∧
           (k + m ≤ col_length c)%nat ∧
           (k = 0%nat ↔ m = col_length c).
Proof.
  intros Hnd Hpage Hin. unfold show_data_analysis in Hpage.
  case_bool_decide as Hcols; [done|].
  case_bool_decide; [|done]. injection Hpage as <-.
  do 2 case_bool_decide; page_cases Hin; simplify_eq.
  all: split_and!.
  all: try (unfold unique_counts; rewrite <-list_fmap_compose;
            by rewrite <-(list_fmap_id (categorical_cols df)) at 2).
  all: try (unfold unique_counts; intros E%fmap_nil_inv;
            rewrite E in *; simpl in *; lia).
  all: intros n k Hnk; unfold unique_counts in Hnk;
    apply list_elem_of_fmap in Hnk as (col & [= -> ->] & Hcol);
    destruct (named_column df col false Hnd Hcol) as (c & Hc & Hnum & Hs);
    exists c, (isna_sum (col_cells c)); rewrite Hs;
    (split_and!; [done|done| |apply nunique_le|apply nunique_zero]);
    unfold missing_values; apply list_elem_of_fmap; by exists (col, c).
Qed.

(** ** Runs of the app *)

Lemma drop_duplicates_not_empty df :
  is_empty df = false → is_empty (drop_duplicates df) = false.
Proof.
  intros He. unfold drop_duplicates. rewrite He.
  apply bool_decide_eq_false in He. apply bool_decide_eq_false. simpl.
  intros [Hi|Hc].
  - apply He. left.
    unfold duplicated, rows, nrows in Hi.
    destruct (index df) as [|l idx]; [done|]. exfalso.
    cbn [length seq fmap list_fmap duplicated_from] in Hi.
    rewrite decide_False in Hi by apply not_elem_of_nil.
    discriminate Hi.
  - apply He. right. by apply fmap_nil_inv in Hc.
Qed.

Section runs_facts.
Context {io : Readers} {P : Parsers}.

Lemma clean_data_names df : (columns (clean_data df)).*1 = (columns df).*1.
Proof.
  unfold clean_data. rewrite coerce_names.
  change (columns (reset_index ?x)) with (columns x).
  by rewrite drop_duplicates_names, impute_names.
Qed.

Lemma clean_data_nrows df :
  nrows (clean_data df) = nrows (drop_duplicates (impute df)).
Proof.
  unfold clean_data, coerce, reset_index, nrows. simpl.
  by rewrite length_fmap, length_seq.
Qed.

Lemma impute_not_empty df : is_empty df = false → is_empty (impute df) = false.
Proof.
  intros He. apply bool_decide_eq_false in He. apply bool_decide_eq_false.
  intros [Hi|Hc]; apply He; [by left|right].
  apply (f_equal (fmap fst)) in Hc. rewrite impute_names in Hc.
  by apply fmap_nil_inv in Hc.
Qed.

Lemma clean_data_not_empty df :
  is_empty df = false → is_empty (clean_data df) = false.
Proof.
  intros He. apply impute_not_empty, drop_duplicates_not_empty in He.
  apply bool_decide_eq_false in He. apply bool_decide_eq_false.
  intros [Hi|Hc]; apply He.
  - left. apply (f_equal length) in Hi. fold (nrows (clean_data df)) in Hi.
    rewrite clean_data_nrows in Hi. by apply length_zero_iff_nil.
  - right. apply (f_equal (fmap fst)) in Hc. rewrite clean_data_names in Hc.
    rewrite <-impute_names, <-drop_duplicates_names in Hc.
    by apply fmap_nil_inv in Hc.
Qed.

Lemma show_data_analysis_Done df :
  is_empty df = false → NoDup (columns df).*1 →
  ∃ analysis, show_data_analysis df = (analysis, Done) ∧
              st_write_shape (nrows df) (length (columns df)) ∈ analysis.
Proof.
  intros He Hnd. apply bool_decide_eq_false in He. unfold show_data_analysis.
  case_bool_decide as Hc; [destruct He; by right|].
  case_bool_decide; [|done]. eexists. split; [done|]. on_page.
Qed.

Lemma numbers_VNum (xs : list (option float64)) :
  numbers (dropna (fmap (M:=option) VNum <$> xs)) = dropna xs.
Proof.
  unfold numbers, dropna. induction xs as [|[x|] xs IH]; csimpl; [done| |done].
  by rewrite IH.
Qed.


Lemma picked_numeric_column df pick :
  NoDup (columns df).*1 → numeric_cols df ≠ [] →
  ∃ xs : list (option float64),
    (selectbox (numeric_cols df) pick, Numeric xs) ∈ columns df ∧
    numbers (dropna (series df (selectbox (numeric_cols df) pick))) = dropna xs.
Proof.
  intros Hnd Hne.
  destruct (named_column df (selectbox (numeric_cols df) pick) true Hnd)
    as (c & Hc & Hnum & Hs); [by apply selectbox_elem_of|].
  destruct c as [xs| | |]; try done. exists xs. split; [done|].
  rewrite Hs. apply numbers_VNum.
Qed.



(** One run on a frame that is let through. *)
Lemma main_loaded i s f df :
  uploaded_file i = Some f → loads f df → NoDup (columns df).*1 →
  ∃ before,
    main i s =
      (let d := if clean_clicked i then clean_data df else default df s in
       let s' := if clean_clicked i then Some (clean_data df) else s in
       match show_data_analysis d with
       | (analysis, Done) =>
           (before ++ analysis ++
              (show_visualizations (hist_col i) (bar_col i) d).1,
            s', (show_visualizations (hist_col i) (bar_col i) d).2)
       | (analysis, e) => (before ++ analysis, s', e)
       end) ∧
    st_dataframe (Frame (head df)) ∈ before ∧
    st_dataframe (Counts "Missing Values" (missing_values df)) ∈ before ∧
    (clean_clicked i = true → st_success "Data cleaning completed." ∈ before) ∧
    ∀ d', st_dataframe (Frame d') ∈ before →
          d' = head df ∨
          d' = head (if clean_clicked i then clean_data df else default df s).
Proof.
  intros Hup [Hload He] Hnd. unfold main. rewrite Hup.
  destruct (load_dataset (Some f)) as [r log] eqn:Hl. simpl in Hload. subst r.
  assert (log = []) as ->.
  { pose proof (load_dataset_log f) as H. rewrite Hl in H. by apply H. }
  rewrite He, (bool_decide_eq_true_2 _ Hnd). cbn [negb].
  unfold show_missing_values.
  destruct (clean_clicked i) eqn:Hclick; cbn [default from_option id].
  - exists ([st_sidebar_title "Upload Data"; st_subheader "Raw Data Preview";
             st_dataframe (Frame (head df));
             st_subheader "Missing Values per Column";
             st_dataframe (Counts "Missing Values" (missing_values df));
             st_subheader "Data Cleaning";
             st_success "Data cleaning completed.";
             st_subheader "Cleaned Data Preview";
             st_dataframe (Frame (head (clean_data df)))]).
    split_and!; [|on_page|on_page|intros _; on_page|].
    + destruct (show_data_analysis (clean_data df)) as [analysis []];
        [by destruct (show_visualizations _ _ _)|done..].
    + intros d' Hin. page_cases Hin; simplify_eq; auto.
  - exists ([st_sidebar_title "Upload Data"; st_subheader "Raw Data Preview";
             st_dataframe (Frame (head df));
             st_subheader "Missing Values per Column";
             st_dataframe (Counts "Missing Values" (missing_values df));
             st_subheader "Data Cleaning";
             st_info "Click **Clean Data** to perform cleaning before analysis."]
            ++ match s with
               | Some c => [st_subheader "Last Cleaned Data Preview";
                            st_dataframe (Frame (head c))]
               | None => []
               end).
    split_and!; [|on_page|on_page|done|].
    + destruct (show_data_analysis (default df s)) as [analysis []];
        [destruct (show_visualizations _ _ _)|..];
        simpl; by rewrite <-?(assoc_L (++)).
    + intros d' Hin. destruct s as [c|]; page_cases Hin; simplify_eq; auto.
Qed.






(** Without a frame to work on (no file, a name of another type, a reader
    that raised, or a frame of the model without a row or without a column)
    the run completes, shows no table and no plot, ends on one notice (a
    warning, or the invitation to upload), and leaves the session as it
    was. *)
Theorem nothing_shown_without_data i s :
  (∀ f, uploaded_file i = Some f →
     (load_dataset (Some f)).1 ≠ OtherFrame ∧ ∀ df, ¬ loads f df) →
  ∃ page, main i s = (page, s, Done) ∧
    Forall (λ e, shows_data e = false) page ∧
    ∃ msg, last page = Some (st_info msg) ∨ last page = Some (st_warning msg).
Proof.
  intros Hno. unfold main.
  destruct (uploaded_file i) as [f|] eqn:Hup.
  2:{ eexists. split_and!; [done|by repeat constructor|]. eexists. by left. }
  destruct (Hno f eq_refl) as [Hother Hnone].
  destruct (load_dataset (Some f)) as [[|df|] log] eqn:Hload; [| |done].
  - destruct (load_dataset_error f) as [msg Hmsg]; [by rewrite Hload|].
    rewrite Hload in Hmsg. simpl in Hmsg. subst log.
    eexists. split_and!; [done|by repeat constructor|]. eexists. by right.
  - destruct (is_empty df) eqn:He.
    + pose proof (load_dataset_log f) as H. rewrite Hload in H. simpl in H.
      assert (log = []) as -> by (by apply H).
      eexists. split_and!; [done|by repeat constructor|]. eexists. by right.
    + destruct (Hnone df). split; [by rewrite Hload|done].
Qed.

(** A click on a loaded frame without a repeated column name, whatever the
    session held: the cleaning of the upload is put in the session, also
    when an exception of the histogram then ends the run; before that the
    success message is written and the line on the shape of the data set,
    which reports the number of columns of the upload and a number of rows
    between one and that of the upload.  The run ends as the plots of the
    cleaned frame end. *)
Theorem shape_reported_after_cleaning i s f df :
  uploaded_file i = Some f →
  loads f df →
  NoDup (columns df).*1 →
  clean_clicked i = true →
  ∃ page r,
    main i s =
      (page, Some (clean_data df),
       (show_visualizations (hist_col i) (bar_col i) (clean_data df)).2) ∧
    st_success "Data cleaning completed." ∈ page ∧
    st_write_shape r (length (columns df)) ∈ page ∧
    (1 ≤ r ≤ nrows df)%nat.
Proof.
  intros Hup Hl Hnd Hclick.
  destruct (main_loaded i s f df Hup Hl Hnd)
    as (before & -> & _ & _ & Hsuccess & _).
  rewrite Hclick. cbn zeta.
  pose proof (clean_data_not_empty df (proj2 Hl)) as He'.
  assert (NoDup (columns (clean_data df)).*1) as Hnd'
    by (by rewrite clean_data_names).
  destruct (show_data_analysis_Done _ He' Hnd') as (analysis & -> & Hshape).
  eexists _, (nrows (clean_data df)). split_and!; [done| | | |].
  - apply elem_of_app. left. by apply Hsuccess.
  - replace (length (columns df)) with (length (columns (clean_data df))).
    + apply elem_of_app. right. apply elem_of_app. by left.
    + by rewrite <-(length_fmap fst (columns (clean_data df))),
        clean_data_names, length_fmap.
  - apply bool_decide_eq_false in He'.
    destruct (index (clean_data df)) eqn:E; [destruct He'; by left|].
    unfold nrows. rewrite E. simpl. lia.
  - rewrite clean_data_nrows. etrans; [apply drop_duplicates_nrows_le|done].
Qed.

(** The histogram of a column that holds an infinity is not drawn:
    [ax.hist] raises, nothing of the plots is shown, and the bar chart is
    not reached. *)
Theorem histogram_refuses_infinities hist_pick bar_pick df
    (xs : list (option float64)) (negative : bool) :
  NoDup (columns df).*1 →
  (selectbox (numeric_cols df) hist_pick, Numeric xs) ∈ columns df →
  Some (Infinite negative) ∈ xs →
  show_visualizations hist_pick bar_pick df =
    ([st_subheader "Visualizations";
      st_markdown "**Histogram (Numeric Column)**"], Raised "ValueError").
Proof.
  intros Hnd Hin Hinf. unfold show_visualizations.
  case_bool_decide; [|done].
  assert (numeric_cols df ≠ []) as Hne.
  { intros E. unfold numeric_cols in E. apply fmap_nil_inv in E.
    assert ((selectbox (numeric_cols df) hist_pick, Numeric xs)
            ∈ filter (λ nc, is_numeric nc.2 = true) (columns df)) as H'
      by (by apply list_elem_of_filter).
    rewrite E in H'. by apply elem_of_nil in H'. }
  rewrite bool_decide_eq_true_2 by done.
  destruct (picked_numeric_column df hist_pick Hnd Hne) as (xs' & Hin' & ->).
  assert (Numeric xs = Numeric xs') as [= <-]
    by (by eapply (unique_name (columns df))).
  unfold hist_ending.
  assert (forallb is_finite (dropna xs) = false) as ->; [|done].
  apply not_true_is_false. rewrite forallb_forall. intros H'.
  apply elem_of_dropna, list_elem_of_In, H' in Hinf. done.
Qed.
End runs_facts.

End engine_facts.

(** The worked examples compute with binary64. *)
#[local] Existing Instance binary64.

(** ** Worked examples *)

(** Closed facts are settled by running the definitions. *)

(** *** Imputation *)

Example impute_ex_mixed :
  columns (impute ex_mixed) =
    [("n", Numeric [num 1; num 2; num 3; num 2]);
     ("s", Textual [Some "A"; Some "A"; Some "B"; Some "A"]);
     ("t", Temporal None [Some 5; Some 5; Some 5; Some 7]);
     ("e", Numeric [None; None; None; None]);
     ("b", Boolean [true; false; true; true])]%string.
Proof. run_it. Qed.

Example impute_ex_mean :
  arithmetic_mean [Qc_of_Z 1; Qc_of_Z 3] = Qc_of_Z 2 ∧
  impute ex_mean =
    mkDataFrame [0; 1; 2] [("x", Numeric [num 1; num 2; num 3])]%string.
Proof. split; run_it. Qed.

(** The rounding of binary64, on values that are checked against float64
    by hand: seven thirds, one tenth, the overflow of a sum, ties above
    2^53, and ties among the subnormal numbers. *)
Example round64_examples :
  round64 (Q2Qc (7 # 3)) =
    Finite (Q2Qc (5254199565265579 # 2251799813685248)) ∧
  round64 (Q2Qc (1 # 10)) = tenth ∧
  add64 (Finite (Qc_of_Z (2 ^ 1023))) (Finite (Qc_of_Z (2 ^ 1023))) =
    Some (Infinite false) ∧
  round64 (Qc_of_Z (2 ^ 53 + 1)) = Finite (Qc_of_Z (2 ^ 53)) ∧
  round64 (Qc_of_Z (2 ^ 53 + 3)) = Finite (Qc_of_Z (2 ^ 53 + 4)) ∧
  round64 (Qc_of_Z 1 / Qc_of_Z (2 ^ 1075))%Qc = Finite (Qc_of_Z 0) ∧
  round64 (Qc_of_Z 3 / Qc_of_Z (2 ^ 1075))%Qc =
    Finite (Qc_of_Z 1 / Qc_of_Z (2 ^ 1073))%Qc ∧
  add64 (Infinite false) (Infinite true) = None.
Proof. split_and!; run_it. Qed.

(** The mean of three tenths and a gap is above one tenth. *)
Example impute_ex_tenths :
  impute ex_tenths =
    mkDataFrame [0; 1; 2; 3]
      [("x", Numeric [Some tenth; Some tenth; Some tenth;
                      Some (Finite (Q2Qc (7205759403792795 # 72057594037927936)))])]%string ∧
  ¬ float64_le (Finite (Q2Qc (7205759403792795 # 72057594037927936))) tenth.
Proof. split; run_it. Qed.

Lemma impute_fills_every_column_witness :
  NoDup (columns ex_mixed).*1 ∧
  index (impute ex_mixed) = index ex_mixed ∧
  length (columns (impute ex_mixed)) = length (columns ex_mixed) ∧
  ∀ i n c, columns ex_mixed !! i = Some (n, c) →
    ∃ c', columns (impute ex_mixed) !! i = Some (n, c') ∧
          dtype_of c' = dtype_of c ∧
          col_length c' = col_length c ∧
          (∀ j v, col_cells c !! j = Some (Some v) →
                  col_cells c' !! j = Some (Some v)) ∧
          (col_notna_any c = true → has_mean c = true →
           col_isna_any c' = false) ∧
          (has_mean c = false → c' = c) ∧
          (col_notna_any c = false → c' = c).
Proof.
  assert (NoDup (columns ex_mixed).*1) as Hnd by run_it.
  split; [exact Hnd|]. exact (impute_fills_every_column ex_mixed Hnd).
Defined.

(** A column can hold a value and keep its gap: the float64 sum of the two
    infinities is [NaN], so is the mean, and filling with [NaN] fills
    nothing. *)
Lemma infinite_mean_counterexample :
  columns ex_infinities !! 0%nat =
    Some ("x"%string,
          Numeric [Some (Infinite false); Some (Infinite true); None]) ∧
  col_notna_any
    (Numeric [Some (Infinite false); Some (Infinite true); None]) = true ∧
  mean [Some (Infinite false); Some (Infinite true); None] = None ∧
  impute ex_infinities = ex_infinities ∧
  ¬ (∃ c', columns (impute ex_infinities) !! 0%nat = Some ("x"%string, c') ∧
           col_isna_any c' = false).
Proof.
  split_and!; [run_it..|].
  intros (c' & Hc' & Hna). injection Hc' as <-. discriminate Hna.
Qed.

Lemma impute_numeric_with_mean_witness :
  NoDup (columns ex_thirds).*1 ∧
  columns ex_thirds !! 0%nat =
    Some ("x"%string, Numeric [num 1; num 2; num 4; None]) ∧
  isna_any [num 1; num 2; num 4; None] = true ∧
  notna_any [num 1; num 2; num 4; None] = true ∧
  (∀ the_sum,
     sum64 (default (Finite 0) <$> [num 1; num 2; num 4; None]) = Some the_sum →
     ∃ ys, columns (impute ex_thirds) !! 0%nat = Some ("x"%string, Numeric ys) ∧
           filled_with
             (div64 the_sum (length (dropna [num 1; num 2; num 4; None])))
             [num 1; num 2; num 4; None] ys) ∧
  (sum64 (default (Finite 0) <$> [num 1; num 2; num 4; None]) = None →
     columns (impute ex_thirds) !! 0%nat =
       Some ("x"%string, Numeric [num 1; num 2; num 4; None])).
Proof.
  assert (NoDup (columns ex_thirds).*1) as Hnd by run_it.
  split_and!; [exact Hnd|reflexivity..| |];
    apply (impute_numeric_with_mean ex_thirds 0 "x"
             [num 1; num 2; num 4; None] Hnd eq_refl eq_refl eq_refl).
Defined.

(** The number filled in is the float64 mean, which need not be the
    arithmetic mean: for 1, 2, 4 and a gap it is 2.3333333333333335, the
    float64 next to seven thirds.  And where the float64 sum is [NaN], as
    for the two infinities and a gap, no number is filled in at all. *)
Lemma rounded_mean_counterexample :
  arithmetic_mean [Qc_of_Z 1; Qc_of_Z 2; Qc_of_Z 4] = Q2Qc (7 # 3) ∧
  columns (impute ex_thirds) !! 0%nat =
    Some ("x"%string,
          Numeric [num 1; num 2; num 4;
                   Some (Finite (Q2Qc (5254199565265579 # 2251799813685248)))]) ∧
  ¬ filled_with
      (Finite (arithmetic_mean [Qc_of_Z 1; Qc_of_Z 2; Qc_of_Z 4]))
      [num 1; num 2; num 4; None]
      [num 1; num 2; num 4;
       Some (Finite (Q2Qc (5254199565265579 # 2251799813685248)))] ∧
  columns (impute ex_infinities) !! 0%nat =
    Some ("x"%string,
          Numeric [Some (Infinite false); Some (Infinite true); None]).
Proof.
  split_and!; [run_it..| |run_it].
  intros [_ H]. destruct (H 3%nat) as [H3 _]. specialize (H3 eq_refl).
  revert H3. run_it.
Qed.

Lemma impute_categorical_with_lowest_mode_witness :
  NoDup (columns ex_mixed).*1 ∧
  (∃ m ys, columns (impute ex_mixed) !! 1%nat = Some ("s"%string, Textual ys) ∧
           filled_with m [Some "A"; None; Some "B"; Some "A"]%string ys ∧
           is_lowest_mode String.le m
             (dropna [Some "A"; None; Some "B"; Some "A"]%string)) ∧
  (∃ m ys, columns (impute ex_mixed) !! 2%nat = Some ("t"%string, Temporal None ys) ∧
           filled_with m [Some 5; None; Some 5; Some 7] ys ∧
           is_lowest_mode Z.le m (dropna [Some 5; None; Some 5; Some 7])).
Proof.
  assert (NoDup (columns ex_mixed).*1) as Hnd by run_it.
  split; [exact Hnd|].
  destruct (impute_categorical_with_lowest_mode ex_mixed Hnd) as [Htext Htime].
  split.
  - exact (Htext 1%nat "s"%string _ eq_refl eq_refl eq_refl).
  - exact (Htime 2%nat "t"%string None _ eq_refl eq_refl eq_refl).
Defined.

(** On a tie the first value met is not the one that is filled in: with
    "b" before "a", each once, the missing cell receives "a". *)
Lemma mode_tie_break_counterexample :
  first_most_frequent (dropna [Some "b"; None; Some "a"]%string) = Some "b"%string ∧
  columns (impute ex_tie) =
    [("c", Textual [Some "b"; Some "a"; Some "a"])]%string ∧
  columns (impute ex_tie) ≠
    [("c", Textual (fillna (Some "b") [Some "b"; None; Some "a"]))]%string.
Proof. split_and!; run_it. Qed.

(** *** Duplicate rows *)

Example drop_duplicates_ex_rows :
  reset_index (drop_duplicates ex_rows) =
    mkDataFrame [0; 1]
      [("k", Numeric [num 1; num 2]); ("v", Textual [Some "x"; Some "y"])]%string.
Proof. run_it. Qed.

Lemma drop_duplicates_keeps_first_occurrences_witness :
  wf ex_rows ∧ columns ex_rows ≠ [] ∧
  let df' := reset_index (drop_duplicates ex_rows) in
  rows df' = unique (rows ex_rows) ∧
  rows df' = select (negb <$> duplicated ex_rows) (rows ex_rows) ∧
  (∀ i r, rows ex_rows !! i = Some r →
     duplicated ex_rows !! i = Some true ↔
     ∃ j, (j < i)%nat ∧ rows ex_rows !! j = Some r) ∧
  NoDup (rows df') ∧
  rows df' `sublist_of` rows ex_rows ∧
  (∀ r, r ∈ rows df' ↔ r ∈ rows ex_rows) ∧
  index df' = Z.of_nat <$> seq 0 (length (rows df')) ∧
  (columns df').*1 = (columns ex_rows).*1 ∧
  wf df'.
Proof.
  assert (wf ex_rows) as Hwf by (unfold wf; run_it).
  assert (columns ex_rows ≠ []) as Hcols by done.
  split; [exact Hwf|]. split; [exact Hcols|].
  exact (drop_duplicates_keeps_first_occurrences ex_rows Hwf Hcols).
Defined.

(** A frame without columns keeps its rows, though they are all equal. *)
Lemma drop_duplicates_no_columns_counterexample :
  wf ex_no_columns ∧
  rows ex_no_columns = [[]; []] ∧
  rows (reset_index (drop_duplicates ex_no_columns)) = [[]; []] ∧
  rows (reset_index (drop_duplicates ex_no_columns)) ≠ unique (rows ex_no_columns) ∧
  ¬ NoDup (rows (reset_index (drop_duplicates ex_no_columns))).
Proof. unfold wf. split_and!; run_it. Qed.

(** *** Coercion *)

Example coerce_ex_digits :
  coerce (P:=decimal_and_years) ex_digits =
    mkDataFrame [0; 1; 2] [("a", Numeric [num 1; num 2; num 3])]%string.
Proof. run_it. Qed.

Example coerce_ex_abc : coerce (P:=decimal_and_years) ex_abc = ex_abc.
Proof. run_it. Qed.


(** Both readings succeed on a column of years; the numeric one wins. *)
Example years_read_as_dates :
  to_datetime (Parsers:=decimal_and_years)
    [Some "2020"; Some "2021"; Some "2022"]%string =
  Temporal None [Some 18262; Some 18628; Some 18993].
Proof. reflexivity. Qed.

Example coerce_ex_years :
  coerce (P:=decimal_and_years) ex_years =
    mkDataFrame [0; 1; 2] [("y", Numeric [num 2020; num 2021; num 2022])]%string.
Proof. run_it. Qed.


(** What the decimal grammar reads. *)
Example parse_decimal_examples :
  parse_decimal "" = Some None ∧
  parse_decimal "12" = Some (num 12) ∧
  parse_decimal "-12" = Some (num (-12)) ∧
  parse_decimal "+1" = Some (num 1) ∧
  parse_decimal "1.0" = Some (num 1) ∧
  parse_decimal ".5" = Some (Some (Finite (Q2Qc (1 # 2)))) ∧
  parse_decimal "5." = Some (num 5) ∧
  parse_decimal "1e3" = Some (num 1000) ∧
  parse_decimal "25E-1" = Some (Some (Finite (Q2Qc (5 # 2)))) ∧
  parse_decimal "0.1" = Some (Some tenth) ∧
  parse_decimal "18446744073709551615" = Some (num (2 ^ 64 - 1)) ∧
  parse_decimal "18446744073709551616" = None ∧
  parse_decimal "-9223372036854775808" = Some (num (- 2 ^ 63)) ∧
  parse_decimal "1e400" = Some (Some (Infinite false)) ∧
  parse_decimal "abc" = None ∧
  parse_decimal "." = None ∧
  parse_decimal "-" = None ∧
  parse_decimal "1e" = None ∧
  parse_decimal "e5" = None ∧
  parse_decimal "1.2.3" = None.
Proof. split_and!; run_it. Qed.

(** The column of years, traced: one call, the numeric one, and the
    numbers it read. *)
Example coerce_log_ex_years :
  coerce_log (P:=decimal_and_years)
    (Textual [Some "2020"; Some "2021"; Some "2022"]%string) =
    (Some (Numeric [num 2020; num 2021; num 2022]), [TryNumeric]) ∧
  coerce_log (P:=decimal_and_years)
    (Textual [Some "2020"; Some "x"; Some "2022"]%string) =
    (None, [TryNumeric; TryDatetime]) ∧
  coerce_log (P:=decimal_and_years)
    (Textual [Some "2020"; Some "20.5"; Some "2022"]%string) =
    (Some (Numeric [num 2020; Some (Finite (Q2Qc (41 # 2))); num 2022]),
     [TryNumeric]).
Proof. split_and!; run_it. Qed.

Example coerce_ex_stamps : coerce (P:=decimal_and_utc) ex_stamps = ex_stamps.
Proof. run_it. Qed.

Lemma tz_aware_datetime_is_rejected_witness :
  ∃ c, columns (coerce (P:=decimal_and_utc) ex_stamps) !! 0%nat =
         Some ("ts"%string, c) ∧
       (∀ tz' ts', c ≠ Temporal tz' ts') ∧
       (notna_any [Some "2020-01-01T00:00:00+00:00"; None;
                   Some "2021-06-01T00:00:00+00:00"]%string = true →
        c = Textual [Some "2020-01-01T00:00:00+00:00"; None;
                     Some "2021-06-01T00:00:00+00:00"]%string).
Proof.
  assert (NoDup (columns ex_stamps).*1) as Hnd by run_it.
  apply (tz_aware_datetime_is_rejected (P:=decimal_and_utc)
           ex_stamps 0 "ts" _ "UTC" [Some 0; None; Some 0] Hnd eq_refl);
    [|reflexivity].
  intros s Hs.
  repeat (apply elem_of_cons in Hs as [Hs|Hs];
          [simplify_eq; try (vm_compute; reflexivity)|]).
  by apply elem_of_nil in Hs.
Defined.

(** *** The whole function *)

(** A frame with a column name twice: the call raises. *)
Example clean_data_call_ex_repeated :
  clean_data_call (P:=decimal_only)
    (mkDataFrame [0; 1]
       [("a", Numeric [num 1; None]); ("a", Numeric [num 2; num 3])]%string)
    = None ∧
  clean_data_call (P:=decimal_only) ex_mean =
    Some (mkDataFrame [0; 1; 2] [("x", Numeric [num 1; num 2; num 3])]%string).
Proof. split; run_it. Qed.

Example clean_data_ex_settled :
  clean_data (P:=decimal_only) ex_settled =
    mkDataFrame [0; 1; 2]
      [("a", Numeric [num 1; num 1; num 3]);
       ("b", Textual [Some "x"; Some "y"; Some "x"])]%string.
Proof. run_it. Qed.

Lemma no_datetime_keeps_length : keeps_length (P:=decimal_only).
Proof. intros xs. unfold col_length. simpl. apply length_fmap. Qed.

Lemma clean_data_idempotent_on_settled_output_witness :
  keeps_length (P:=decimal_only) ∧ wf ex_settled ∧
  NoDup (rows (clean_data (P:=decimal_only) ex_settled)) ∧
  Forall (λ nc, settled nc.2) (columns (clean_data (P:=decimal_only) ex_settled)) ∧
  clean_data (P:=decimal_only) (clean_data (P:=decimal_only) ex_settled) =
    clean_data (P:=decimal_only) ex_settled.
Proof.
  assert (wf ex_settled) as Hwf by (unfold wf; run_it).
  assert (NoDup (rows (clean_data (P:=decimal_only) ex_settled))) as Hrows
    by run_it.
  assert (Forall (λ nc, settled nc.2)
            (columns (clean_data (P:=decimal_only) ex_settled))) as Hset.
  { repeat (constructor; [left; reflexivity|]). constructor. }
  split_and!; [exact no_datetime_keeps_length|exact Hwf|exact Hrows|exact Hset|].
  exact (clean_data_idempotent_on_settled_output (P:=decimal_only) ex_settled
           no_datetime_keeps_length Hwf Hrows Hset).
Defined.

(** "1" and "1.0" are two strings and one number: the rows are distinct
    when duplicates are dropped, equal once the column is numeric, and a
    second run drops one of them. *)
Lemma clean_data_not_idempotent_counterexample :
  clean_data (P:=decimal_only) ex_decimals =
    mkDataFrame [0; 1] [("a", Numeric [num 1; num 1])]%string ∧
  clean_data (P:=decimal_only) (clean_data (P:=decimal_only) ex_decimals) =
    mkDataFrame [0] [("a", Numeric [num 1])]%string ∧
  clean_data (P:=decimal_only) (clean_data (P:=decimal_only) ex_decimals) ≠
    clean_data (P:=decimal_only) ex_decimals.
Proof. split_and!; run_it. Qed.

(** The empty string reads as a missing number: the cleaned column has a
    missing cell, which a second run fills with the mean. *)
Example clean_data_fills_on_second_run :
  clean_data (P:=decimal_only) ex_blank =
    mkDataFrame [0; 1; 2] [("a", Numeric [None; num 1; num 3])]%string ∧
  clean_data (P:=decimal_only) (clean_data (P:=decimal_only) ex_blank) =
    mkDataFrame [0; 1; 2] [("a", Numeric [num 2; num 1; num 3])]%string.
Proof. split; run_it. Qed.

(** *** Empty frames *)

Lemma clean_data_on_empty_frame_witness :
  wf ex_header_only ∧ is_empty ex_header_only = true ∧
  impute ex_header_only = ex_header_only ∧
  drop_duplicates (impute ex_header_only) = impute ex_header_only ∧
  is_empty (clean_data (P:=decimal_only) ex_header_only) = true ∧
  index (clean_data (P:=decimal_only) ex_header_only) =
    Z.of_nat <$> seq 0 (nrows ex_header_only) ∧
  (columns (clean_data (P:=decimal_only) ex_header_only)).*1 =
    (columns ex_header_only).*1 ∧
  (∀ i n c, columns ex_header_only !! i = Some (n, c) →
     index ex_header_only = [] ∧
     columns (clean_data (P:=decimal_only) ex_header_only) !! i =
       Some (n, if is_object c then Numeric [] else c)).
Proof.
  assert (wf ex_header_only) as Hwf by (unfold wf; run_it).
  split; [exact Hwf|]. split; [reflexivity|].
  exact (clean_data_on_empty_frame (P:=decimal_only) ex_header_only Hwf eq_refl).
Defined.

(** A frame with a header and no rows: the textual column comes back
    numeric, so the coercion stage is not a no-op on it. *)
Lemma coercion_on_empty_frame_counterexample :
  is_empty ex_header_only = true ∧ wf ex_header_only ∧
  reset_index (drop_duplicates (impute ex_header_only)) = ex_header_only ∧
  coerce (P:=decimal_only) ex_header_only ≠ ex_header_only ∧
  clean_data (P:=decimal_only) ex_header_only =
    mkDataFrame []
      [("a", Numeric []); ("n", Numeric []); ("b", Boolean [])]%string.
Proof. unfold wf. split_and!; run_it. Qed.

(** *** The heap *)

Lemma clean_data_st_leaves_input_unmodified_witness :
  frame_at ex_heap 0%nat ex_mean ∧
  ∃ q h', clean_data_st (P:=decimal_only) 0%nat ex_heap = Some (q, h') ∧
          ex_heap ⊆ h' ∧
          frame_at h' 0%nat ex_mean ∧
          frame_at h' q (clean_data (P:=decimal_only) ex_mean) ∧
          ex_heap !! q = None ∧
          Forall (λ l, ex_heap !! l = None) (buffers h' q).
Proof.
  assert (frame_at ex_heap 0%nat ex_mean) as Hp by (unfold frame_at; run_it).
  split; [exact Hp|].
  exact (clean_data_st_leaves_input_unmodified (P:=decimal_only)
           ex_heap 0%nat ex_mean Hp).
Defined.

(** The run itself: the cleaned frame is a new object, at 8, and the
    caller's two objects are where and what they were. *)
Example clean_data_st_ex_heap :
  (λ r, (r.1, r.2 !! 0%nat, r.2 !! 1%nat, fst <$> read_frame r.1 r.2))
    <$> clean_data_st (P:=decimal_only) 0%nat ex_heap =
  Some (8%nat, ex_heap !! 0%nat, ex_heap !! 1%nat,
        Some (mkDataFrame [0; 1; 2]
                [("x"%string, Numeric [num 1; num 2; num 3])])).
Proof. run_it. Qed.

(** ** Worked examples for the further properties *)

Lemma clean_data_keeps_shape_witness :
  keeps_length (P:=decimal_only) ∧ wf ex_rows ∧
  wf (clean_data (P:=decimal_only) ex_rows) ∧
  index (clean_data (P:=decimal_only) ex_rows) =
    Z.of_nat <$> seq 0 (nrows (clean_data (P:=decimal_only) ex_rows)) ∧
  Forall (λ nc, col_length nc.2 = nrows (clean_data (P:=decimal_only) ex_rows))
         (columns (clean_data (P:=decimal_only) ex_rows)).
Proof.
  assert (wf ex_rows) as Hwf by (unfold wf; run_it).
  split_and!; [exact no_datetime_keeps_length|exact Hwf|..];
    apply (clean_data_keeps_shape (P:=decimal_only) ex_rows
             no_datetime_keeps_length Hwf).
Defined.

Lemma clean_data_row_count_witness :
  wf ex_rows ∧
  (nrows (clean_data (P:=decimal_only) ex_rows) ≤ nrows ex_rows)%nat ∧
  (columns ex_rows ≠ [] →
   nrows (clean_data (P:=decimal_only) ex_rows) =
     length (unique (rows (impute ex_rows)))).
Proof.
  assert (wf ex_rows) as Hwf by (unfold wf; run_it).
  split; [exact Hwf|].
  exact (clean_data_row_count (P:=decimal_only) ex_rows Hwf).
Defined.

Lemma impute_is_idempotent_witness :
  NoDup (columns ex_mixed).*1 ∧ impute (impute ex_mixed) = impute ex_mixed.
Proof.
  assert (NoDup (columns ex_mixed).*1) as Hnd by run_it.
  split; [exact Hnd|]. exact (impute_is_idempotent ex_mixed Hnd).
Defined.

Lemma impute_keeps_present_cells_witness :
  NoDup (columns ex_mixed).*1 ∧
  columns ex_mixed !! 1%nat =
    Some ("s"%string, Textual [Some "A"; None; Some "B"; Some "A"]%string) ∧
  ∃ c', columns (impute ex_mixed) !! 1%nat = Some ("s"%string, c') ∧
        dtype_of c' = DObject ∧
        col_length c' = 4%nat ∧
        ∀ j v, [Some (VStr "A"); None; Some (VStr "B"); Some (VStr "A")] !! j
                 = Some (Some v) →
               col_cells c' !! j = Some (Some v).
Proof.
  assert (NoDup (columns ex_mixed).*1) as Hnd by run_it.
  split_and!; [exact Hnd|reflexivity|].
  exact (impute_keeps_present_cells ex_mixed 1 "s"
           (Textual [Some "A"; None; Some "B"; Some "A"]%string)
           Hnd eq_refl).
Defined.

Lemma drop_duplicates_is_idempotent_witness :
  wf ex_rows ∧
  reset_index (drop_duplicates (reset_index (drop_duplicates ex_rows))) =
  reset_index (drop_duplicates ex_rows).
Proof.
  assert (wf ex_rows) as Hwf by (unfold wf; run_it).
  split; [exact Hwf|]. exact (drop_duplicates_is_idempotent ex_rows Hwf).
Defined.

Lemma coercion_is_idempotent_witness :
  NoDup (columns ex_digits).*1 ∧
  coerce (P:=decimal_only) (coerce (P:=decimal_only) ex_digits) =
    coerce (P:=decimal_only) ex_digits ∧
  ∀ c, coerce_column (P:=decimal_only) (coerce_column (P:=decimal_only) c) =
       coerce_column (P:=decimal_only) c.
Proof.
  assert (NoDup (columns ex_digits).*1) as Hnd by run_it.
  split; [exact Hnd|].
  exact (coercion_is_idempotent (P:=decimal_only) ex_digits Hnd).
Defined.


Lemma clean_data_keeps_dtypes_witness :
  NoDup (columns ex_mixed).*1 ∧
  columns ex_mixed !! 4%nat =
    Some ("b"%string, Boolean [true; false; true; true]) ∧
  ∃ c', columns (clean_data (P:=decimal_only) ex_mixed) !! 4%nat =
          Some ("b"%string, c') ∧
        (is_object (Boolean [true; false; true; true]) = false →
         dtype_of c' = DBool) ∧
        (is_tz_aware c' = true →
         is_tz_aware (Boolean [true; false; true; true]) = true).
Proof.
  assert (NoDup (columns ex_mixed).*1) as Hnd by run_it.
  split_and!; [exact Hnd|reflexivity|].
  exact (clean_data_keeps_dtypes (P:=decimal_only) ex_mixed 4 "b"
           (Boolean [true; false; true; true]) Hnd eq_refl).
Defined.

(** ** Worked examples for the pages *)

Example load_dataset_ex_upload :
  load_dataset (io:=ex_readers) (Some ex_upload) = (AFrame ex_rows, []) ∧
  load_dataset (io:=ex_readers) (Some ex_upload_text) =
    (NoFrame,
     [st_error "Unsupported file type. Please upload a CSV or JSON file."]) ∧
  load_dataset (io:=ex_readers) (Some (mkUploadedFile "a.csv" "nothing")) =
    (NoFrame, [st_error "Error loading file: No columns to parse from file"]) ∧
  load_dataset (io:=ex_readers) (Some ex_upload_nested) = (OtherFrame, []).
Proof. split_and!; reflexivity. Qed.

Example missing_values_ex_mixed :
  missing_values ex_mixed =
    [("n", 1); ("s", 1); ("t", 1); ("e", 4); ("b", 0)]%string%nat ∧
  missing_values (impute ex_mixed) =
    [("n", 0); ("s", 0); ("t", 0); ("e", 4); ("b", 0)]%string%nat ∧
  missing_values ex_infinities = [("x", 1)]%string%nat ∧
  missing_values (impute ex_infinities) = [("x", 1)]%string%nat.
Proof. split_and!; run_it. Qed.

Lemma missing_report_tells_what_imputation_changes_witness :
  NoDup (columns ex_infinities).*1 ∧
  columns ex_infinities !! 0%nat =
    Some ("x"%string,
          Numeric [Some (Infinite false); Some (Infinite true); None]) ∧
  ∃ k, show_missing_values ex_infinities !! 1%nat =
         Some (st_dataframe
                 (Counts "Missing Values" (missing_values ex_infinities))) ∧
       missing_values ex_infinities !! 0%nat = Some ("x"%string, k) ∧
       (k ≤ col_length
              (Numeric [Some (Infinite false); Some (Infinite true); None]))%nat ∧
       (columns (impute ex_infinities) !! 0%nat =
          Some ("x"%string,
                Numeric [Some (Infinite false); Some (Infinite true); None]) ↔
        k = 0%nat ∨
        k = col_length
              (Numeric [Some (Infinite false); Some (Infinite true); None]) ∨
        has_mean
          (Numeric [Some (Infinite false); Some (Infinite true); None])
          = false) ∧
       missing_values (impute ex_infinities) !! 0%nat =
         Some ("x"%string,
               if decide
                    (k = col_length
                           (Numeric [Some (Infinite false);
                                     Some (Infinite true); None]) ∨
                     has_mean
                       (Numeric [Some (Infinite false);
                                 Some (Infinite true); None]) = false)
               then k else 0%nat).
Proof.
  assert (NoDup (columns ex_infinities).*1) as Hnd by run_it.
  split_and!; [exact Hnd|reflexivity|].
  exact (missing_report_tells_what_imputation_changes ex_infinities 0 "x"
           (Numeric [Some (Infinite false); Some (Infinite true); None])
           Hnd eq_refl).
Defined.

Example show_visualizations_ex_mixed :
  show_visualizations 0 0 ex_mixed =
    ([st_subheader "Visualizations";
      st_markdown "**Histogram (Numeric Column)**";
      st_pyplot (Hist "n" [VNum (Finite (Qc_of_Z 1)); VNum (Finite (Qc_of_Z 3));
           VNum (Finite (Qc_of_Z 2))] 20);
      st_markdown "**Bar Chart (Categorical Column)**";
      st_pyplot (Bar "s" [(VStr "A", 2%nat); (VStr "B", 1%nat)])], Done) ∧
  show_visualizations 0 0 ex_infinities =
    ([st_subheader "Visualizations";
      st_markdown "**Histogram (Numeric Column)**"], Raised "ValueError").
Proof. split; run_it. Qed.

(** Values of equal count come in the order of their first appearance. *)
Example value_counts_ex_ties :
  value_counts [Some "b"; Some "a"; None; Some "c"; Some "a"; Some "c"]%string
  = [("a", 2); ("c", 2); ("b", 1)]%string%nat ∧
  value_counts [Some "a"; Some "b"; Some "c"]%string
  = [("a", 1); ("b", 1); ("c", 1)]%string%nat.
Proof. split; run_it. Qed.

Lemma histogram_shows_present_numbers_witness :
  NoDup (columns ex_mixed).*1 ∧
  st_pyplot (Hist "n" [VNum (Finite (Qc_of_Z 1)); VNum (Finite (Qc_of_Z 3));
           VNum (Finite (Qc_of_Z 2))] 20)
    ∈ (show_visualizations 0 0 ex_mixed).1 ∧
  20%nat = 20%nat ∧
  ∃ xs, ("n"%string, Numeric xs) ∈ columns ex_mixed ∧
        [VNum (Finite (Qc_of_Z 1)); VNum (Finite (Qc_of_Z 3));
           VNum (Finite (Qc_of_Z 2))] =
          VNum <$> dropna xs ∧
        (length [VNum (Finite (Qc_of_Z 1)); VNum (Finite (Qc_of_Z 3));
           VNum (Finite (Qc_of_Z 2))] +
         isna_sum xs)%nat = length xs.
Proof.
  assert (NoDup (columns ex_mixed).*1) as Hnd by run_it.
  assert (st_pyplot
            (Hist "n" [VNum (Finite (Qc_of_Z 1)); VNum (Finite (Qc_of_Z 3));
           VNum (Finite (Qc_of_Z 2))] 20)
          ∈ (show_visualizations 0 0 ex_mixed).1) as Hin by run_it.
  split_and!; [exact Hnd|exact Hin|..];
    apply (histogram_shows_present_numbers 0 0 ex_mixed "n" _ 20 Hnd Hin).
Defined.

Lemma bar_chart_shows_most_frequent_values_witness :
  NoDup (columns ex_mixed).*1 ∧
  st_pyplot (Bar "s" [(VStr "A", 2%nat); (VStr "B", 1%nat)])
    ∈ (show_visualizations 0 0 ex_mixed).1 ∧
  ∃ c, ("s"%string, c) ∈ columns ex_mixed ∧ is_numeric c = false ∧
    length [(VStr "A", 2%nat); (VStr "B", 1%nat)] =
      (20 `min` nunique (col_cells c))%nat ∧
    NoDup [(VStr "A", 2%nat); (VStr "B", 1%nat)].*1 ∧
    StronglySorted more_frequent [(VStr "A", 2%nat); (VStr "B", 1%nat)] ∧
    (∀ v k, (v, k) ∈ [(VStr "A", 2%nat); (VStr "B", 1%nat)] →
       Some v ∈ col_cells c ∧
       k = occurrences v (dropna (col_cells c)) ∧ (0 < k)%nat) ∧
    (∀ v, Some v ∈ col_cells c →
       v ∉ [(VStr "A", 2%nat); (VStr "B", 1%nat)].*1 →
       length [(VStr "A", 2%nat); (VStr "B", 1%nat)] = 20%nat ∧
       ∀ w k, (w, k) ∈ [(VStr "A", 2%nat); (VStr "B", 1%nat)] →
         (occurrences v (dropna (col_cells c)) ≤ k)%nat) ∧
    (sum_list [(VStr "A", 2%nat); (VStr "B", 1%nat)].*2 +
       isna_sum (col_cells c) ≤ col_length c)%nat ∧
    ((nunique (col_cells c) ≤ 20)%nat →
     (sum_list [(VStr "A", 2%nat); (VStr "B", 1%nat)].*2 +
        isna_sum (col_cells c))%nat = col_length c).
Proof.
  assert (NoDup (columns ex_mixed).*1) as Hnd by run_it.
  assert (st_pyplot (Bar "s" [(VStr "A", 2%nat); (VStr "B", 1%nat)])
          ∈ (show_visualizations 0 0 ex_mixed).1) as Hin by run_it.
  split_and!; [exact Hnd|exact Hin|].
  exact (bar_chart_shows_most_frequent_values 0 0 ex_mixed "s" _ Hnd Hin).
Defined.

Example show_data_analysis_ex_mixed :
  show_data_analysis ex_mixed =
    ([st_subheader "Data Analysis";
       st_markdown "**Dataset Shape**";
       st_write_shape 4 5;
       st_markdown "**Column Data Types**";
       st_dataframe
         (Dtypes [("n", DNumeric); ("s", DObject); ("t", DTemporal None);
                  ("e", DNumeric); ("b", DBool)]%string);
       st_markdown "**Descriptive Statistics (Numeric Columns)**";
       st_dataframe (Describe ex_mixed);
       st_markdown "**Unique Value Counts (Categorical Columns)**";
       st_dataframe
         (Counts "Unique Values" [("s", 2); ("t", 2); ("b", 2)]%string%nat);
       st_markdown "**Correlation Matrix (Numeric Columns)**";
       st_dataframe
         (Corr [("n", Numeric [num 1; None; num 3; num 2]);
                ("e", Numeric [None; None; None; None])]%string)], Done) ∧
  (show_data_analysis ex_no_columns).2 = Raised "ValueError".
Proof. split; run_it. Qed.

Lemma unique_counts_of_categorical_columns_witness :
  NoDup (columns ex_mixed).*1 ∧
  show_data_analysis ex_mixed = ((show_data_analysis ex_mixed).1, Done) ∧
  st_dataframe (Counts "Unique Values" [("s", 2); ("t", 2); ("b", 2)]%string%nat)
    ∈ (show_data_analysis ex_mixed).1 ∧
  [("s", 2); ("t", 2); ("b", 2)]%string%nat.*1 = categorical_cols ex_mixed ∧
  [("s", 2); ("t", 2); ("b", 2)]%string%nat ≠ [] ∧
  ∀ n k, (n, k) ∈ [("s", 2); ("t", 2); ("b", 2)]%string%nat →
    ∃ c m, (n, c) ∈ columns ex_mixed ∧ is_numeric c = false ∧
           (n, m) ∈ missing_values ex_mixed ∧
           (k + m ≤ col_length c)%nat ∧
           (k = 0%nat ↔ m = col_length c).
Proof.
  assert (NoDup (columns ex_mixed).*1) as Hnd by run_it.
  assert (show_data_analysis ex_mixed =
            ((show_data_analysis ex_mixed).1, Done)) as Hpage
    by reflexivity.
  assert (st_dataframe
            (Counts "Unique Values" [("s", 2); ("t", 2); ("b", 2)]%string%nat)
          ∈ (show_data_analysis ex_mixed).1) as Hin by run_it.
  split_and!; [exact Hnd|exact Hpage|exact Hin|..];
    apply (unique_counts_of_categorical_columns ex_mixed _ _ Hnd Hpage Hin).
Defined.

(** Two runs of one session: a click on rows.csv, then mixed.csv without a
    click.  The second page previews and counts the missing cells of the
    second file, and analyses the cleaning of the first. *)
Example runs_ex_click_then_look :
  ∃ page1 page2,
    runs (io:=ex_readers) (P:=decimal_only) [ex_click; ex_look] None =
      Some ([(page1, Done); (page2, Done)],
            Some (clean_data (P:=decimal_only) ex_rows)) ∧
    st_dataframe (Frame (head ex_mixed)) ∈ page2 ∧
    st_write_shape 2 2 ∈ page2 ∧
    st_write_shape 4 5 ∉ page2.
Proof.
  eexists _, _. split; [reflexivity|]. split_and!; run_it.
Qed.

(** A click on a file with the two infinities: the cleaned frame is put in
    the session, then the histogram raises; the next run, without a click,
    analyses the stored frame and ends in the same way.  A file of nested
    records is beyond the model. *)
Example runs_ex_infinities :
  ∃ page1 page2,
    runs (io:=ex_readers) (P:=decimal_only)
      [ex_click_infinities; ex_look] None =
      Some ([(page1, Raised "ValueError"); (page2, Raised "ValueError")],
            Some (clean_data (P:=decimal_only) ex_infinities)) ∧
    st_success "Data cleaning completed." ∈ page1 ∧
    st_write_shape 3 1 ∈ page2 ∧
    (main (io:=ex_readers) (P:=decimal_only)
       (mkInputs (Some ex_upload_nested) true 0 0) None).2 = Unmodelled.
Proof.
  eexists _, _. split; [reflexivity|]. split_and!; run_it.
Qed.



Lemma nothing_shown_without_data_witness :
  (∀ f, uploaded_file ex_look_text = Some f →
     (load_dataset (io:=ex_readers) (Some f)).1 ≠ OtherFrame ∧
     ∀ df, ¬ loads (io:=ex_readers) f df) ∧
  ∃ page,
    main (io:=ex_readers) (P:=decimal_only) ex_look_text (Some ex_rows) =
      (page, Some ex_rows, Done) ∧
    Forall (λ e, shows_data e = false) page ∧
    ∃ msg, last page = Some (st_info msg) ∨ last page = Some (st_warning msg).
Proof.
  assert (∀ f, uploaded_file ex_look_text = Some f →
     (load_dataset (io:=ex_readers) (Some f)).1 ≠ OtherFrame ∧
     ∀ df, ¬ loads (io:=ex_readers) f df) as Hno.
  { intros f Hf. injection Hf as <-. split; [run_it|].
    intros df [Hload _]. discriminate Hload. }
  split; [exact Hno|].
  exact (nothing_shown_without_data (io:=ex_readers) (P:=decimal_only)
           ex_look_text (Some ex_rows) Hno).
Defined.

Lemma shape_reported_after_cleaning_witness :
  uploaded_file ex_click_infinities = Some ex_upload_infinities ∧
  loads (io:=ex_readers) ex_upload_infinities ex_infinities ∧
  NoDup (columns ex_infinities).*1 ∧
  clean_clicked ex_click_infinities = true ∧
  ∃ page r,
    main (io:=ex_readers) (P:=decimal_only) ex_click_infinities None =
      (page, Some (clean_data (P:=decimal_only) ex_infinities),
       (show_visualizations (hist_col ex_click_infinities)
          (bar_col ex_click_infinities)
          (clean_data (P:=decimal_only) ex_infinities)).2) ∧
    st_success "Data cleaning completed." ∈ page ∧
    st_write_shape r (length (columns ex_infinities)) ∈ page ∧
    (1 ≤ r ≤ nrows ex_infinities)%nat.
Proof.
  assert (loads (io:=ex_readers) ex_upload_infinities ex_infinities) as Hl.
  { split; run_it. }
  assert (NoDup (columns ex_infinities).*1) as Hnd by run_it.
  split_and!; [reflexivity|exact Hl|exact Hnd|reflexivity|].
  exact (shape_reported_after_cleaning (io:=ex_readers) (P:=decimal_only)
           ex_click_infinities None ex_upload_infinities ex_infinities
           eq_refl Hl Hnd eq_refl).
Defined.

Lemma histogram_refuses_infinities_witness :
  NoDup (columns ex_infinities).*1 ∧
  (selectbox (numeric_cols ex_infinities) 0,
   Numeric [Some (Infinite false); Some (Infinite true); None])
    ∈ columns ex_infinities ∧
  Some (Infinite true)
    ∈ [Some (Infinite false); Some (Infinite true); None] ∧
  show_visualizations 0 0 ex_infinities =
    ([st_subheader "Visualizations";
      st_markdown "**Histogram (Numeric Column)**"], Raised "ValueError").
Proof.
  assert (NoDup (columns ex_infinities).*1) as Hnd by run_it.
  assert ((selectbox (numeric_cols ex_infinities) 0,
           Numeric [Some (Infinite false); Some (Infinite true); None])
          ∈ columns ex_infinities) as Hin by run_it.
  assert (Some (Infinite true)
          ∈ [Some (Infinite false); Some (Infinite true); None]) as Hinf
    by run_it.
  split_and!; [exact Hnd|exact Hin|exact Hinf|].
  exact (histogram_refuses_infinities 0 0 ex_infinities _ true Hnd Hin Hinf).
Defined.
